(** * Flashcard Tutor: the presentation layer of [app.py]

    A shallow embedding of the input preprocessing, the generation
    wrapper and the quiz session of [app.py], with the properties of
    its specification proved about it.

    Python strings are sequences of Unicode code points, and [len]
    counts code points: a string is a [list N], one number per code
    point.  Python integers are unbounded: they are [Z]. *)

From Stdlib Require Import Ascii String.
From Stdlib Require Import List ZArith NArith Bool Lia.
From Stdlib Require Import Numbers.DecimalString.
Import ListNotations.

(** ** Strings *)

Module Str.

Definition char := N.
Definition str := list char.

Definition TAB : char := 9%N.
Definition LF : char := 10%N.
Definition CR : char := 13%N.
Definition SP : char := 32%N.

(** A literal of the source, read one code point per (ASCII) character. *)
Fixpoint lit (s : string) : str :=
  match s with
  | EmptyString => []
  | String a r => N_of_ascii a :: lit r
  end.

(** [str(n)] and the [{n}] of an f-string, for an integer [n]. *)
Definition str_of_int (n : Z) : str :=
  lit (NilEmpty.string_of_int (Z.to_int n)).

Fixpoint starts_with (old s : str) : bool :=
  match old, s with
  | [], _ => true
  | _ :: _, [] => false
  | a :: old', b :: s' => N.eqb a b && starts_with old' s'
  end.

(** [s.replace(old, new)] for a non-empty [old]: the occurrences of [old]
    are found from left to right and do not overlap.  [skip] counts the
    characters of a found occurrence that are still to be passed over. *)
Fixpoint replace_from (old new : str) (skip : nat) (s : str) : str :=
  match s with
  | [] => []
  | c :: rest =>
      match skip with
      | S k => replace_from old new k rest
      | O =>
          if starts_with old s
          then new ++ replace_from old new (length old - 1) rest
          else c :: replace_from old new 0 rest
      end
  end.

Definition replace (old new s : str) : str := replace_from old new 0 s.

(** [re.sub] for a pattern that is one character class [cls] repeated at
    least [least] times, greedily: [[\t ]+] and [\n{3,}].  The text is
    scanned once; [run] is the maximal run of class characters read so
    far.  When the run ends it is a match if it is long enough, and the
    replacement is written for it; a shorter run holds no match and is
    written as it is. *)
Definition flush (least : nat) (repl run : str) : str :=
  match run with
  | [] => []
  | _ :: _ => if least <=? length run then repl else run
  end.

Fixpoint re_sub_scan (cls : char -> bool) (least : nat) (repl run s : str) : str :=
  match s with
  | [] => flush least repl run
  | c :: rest =>
      if cls c
      then re_sub_scan cls least repl (run ++ [c]) rest
      else flush least repl run ++ c :: re_sub_scan cls least repl [] rest
  end.

Definition re_sub_run (cls : char -> bool) (least : nat) (repl s : str) : str :=
  re_sub_scan cls least repl [] s.

Definition is_blank (c : char) : bool := N.eqb c TAB || N.eqb c SP.
Definition is_newline (c : char) : bool := N.eqb c LF.

(** The characters [str.strip()] removes: those for which
    [str.isspace()] holds. *)
Definition isspace (c : char) : bool :=
  (N.leb 9 c && N.leb c 13) || (N.leb 28 c && N.leb c 32)
  || N.eqb c 133 || N.eqb c 160 || N.eqb c 5760
  || (N.leb 8192 c && N.leb c 8202)
  || N.eqb c 8232 || N.eqb c 8233 || N.eqb c 8239 || N.eqb c 8287
  || N.eqb c 12288.

Fixpoint lstrip (s : str) : str :=
  match s with
  | [] => []
  | c :: rest => if isspace c then lstrip rest else s
  end.

Definition rstrip (s : str) : str := rev (lstrip (rev s)).

Definition strip (s : str) : str := rstrip (lstrip s).

(** Measures of a text, used to state that it is normalized. *)
Fixpoint prefix_run (p : char -> bool) (s : str) : nat :=
  match s with
  | [] => 0
  | c :: rest => if p c then S (prefix_run p rest) else 0
  end.

Fixpoint longest_run (p : char -> bool) (s : str) : nat :=
  match s with
  | [] => 0
  | _ :: rest => Nat.max (prefix_run p s) (longest_run p rest)
  end.

End Str.

Import Str.

(** ** Input preprocessing *)

Definition EM_DASH : char := 8212%N.

Definition msg_none : str := lit "Please paste your study notes in the textbox.".

Definition msg_empty : str :=
  lit "Please paste your study notes " ++ [EM_DASH]
  ++ lit " the input is currently empty.".

Definition min_chars : Z := 120.

Definition msg_short : str :=
  lit "Your study material looks too short to generate useful flashcards. "
  ++ lit "Please paste at least ~" ++ str_of_int min_chars
  ++ lit " characters (a few paragraphs) and try again.".

(** The four rewriting steps of [_preprocess_study_text], in order. *)
Definition normalize (raw_text : str) : str :=
  let text := replace [CR] [LF] (replace [CR; LF] [LF] raw_text) in
  let text := re_sub_run is_blank 1 [SP] text in
  let text := re_sub_run is_newline 3 [LF; LF] text in
  strip text.

(** [_preprocess_study_text]: [(clean_text, None)] or [(None, error)].
    The argument is [None] for Python's [None]. *)
Definition _preprocess_study_text (raw_text : option str)
  : option str * option str :=
  match raw_text with
  | None => (None, Some msg_none)
  | Some raw =>
      let text := normalize raw in
      match text with
      | [] => (None, Some msg_empty)
      | _ :: _ =>
          if (Z.of_nat (length text) <? min_chars)%Z
          then (None, Some msg_short)
          else (Some text, None)
      end
  end.

(** ** Dictionaries, exceptions *)

Fixpoint str_eqb (a b : str) : bool :=
  match a, b with
  | [], [] => true
  | x :: a', y :: b' => N.eqb x y && str_eqb a' b'
  | _, _ => false
  end.

(** A dictionary from strings to strings, in insertion order. *)
Definition Dict := list (str * str).

(** [d.get(key, default)] *)
Fixpoint dict_get (d : Dict) (key default : str) : str :=
  match d with
  | [] => default
  | (k, v) :: d' => if str_eqb k key then v else dict_get d' key default
  end.

(** An exception is kept as its message, [str(e)]. *)
Definition exn := str.
Definition Exc (A : Type) : Type := (exn + A)%type.

Definition ret {A : Type} (a : A) : Exc A := inr a.
Definition raise {A : Type} (e : exn) : Exc A := inl e.
Definition bind {A B : Type} (m : Exc A) (f : A -> Exc B) : Exc B :=
  match m with
  | inl e => inl e
  | inr a => f a
  end.

Notation "x <- m ;; k" := (bind m (fun x => k))
  (at level 61, m at next level, right associativity).

Definition ZeroDivisionError : exn := lit "division by zero".
Definition IndexError : exn := lit "list index out of range".

Definition len {A : Type} (l : list A) : Z := Z.of_nat (length l).

(** [l[i]]: a negative index counts from the end, an index out of range
    raises [IndexError]. *)
Definition py_index {A : Type} (l : list A) (i : Z) : Exc A :=
  let j := (if i <? 0 then len l + i else i)%Z in
  if ((0 <=? j) && (j <? len l))%Z
  then match nth_error l (Z.to_nat j) with
       | Some x => ret x
       | None => raise IndexError
       end
  else raise IndexError.

(** ** Generating the flashcards *)

(** Modelled from the spec: the [Flashcard] dataclass of the module
    [flashcards], which is not part of the sources at hand.  Its four text
    fields are those of the Card of the data model, the keys the quiz
    reads back from [asdict]. *)
Record Flashcard : Type := mkFlashcard {
  fc_type : str;
  fc_difficulty : str;
  fc_question : str;
  fc_answer : str
}.

Definition asdict (c : Flashcard) : Dict :=
  [ (lit "type", fc_type c); (lit "difficulty", fc_difficulty c);
    (lit "question", fc_question c); (lit "answer", fc_answer c) ].

(** The arguments of one call of [generate_flashcards], and what the call
    does: it raises an exception or returns [(cards, mode, raw)]. *)
Record GenArgs : Type := mkGenArgs {
  g_text : option str;
  g_n : Z;
  g_style : str;
  g_difficulty : str;
  g_use_llm : bool
}.

Inductive GenOutcome : Type :=
| Raised (e : exn)
| Returned (cards : list Flashcard) (mode raw : str).

(** What [ui_generate] returns: table rows, status, raw output, cards state. *)
Definition UiOut : Type := (list (list str) * str * str * list Dict)%type.

(** [ui_generate] either returns without calling the generator, or calls
    it once and computes its result from the outcome of the call. *)
Inductive UiProg : Type :=
| Done (out : UiOut)
| CallGenerate (args : GenArgs) (k : GenOutcome -> UiOut).

Definition run (generate_flashcards : GenArgs -> GenOutcome) (p : UiProg) : UiOut :=
  match p with
  | Done out => out
  | CallGenerate args k => k (generate_flashcards args)
  end.

Definition invokes_generator (p : UiProg) : bool :=
  match p with
  | Done _ => false
  | CallGenerate _ _ => true
  end.

Definition error_prefix : str := lit "**Error:** ".

Definition status_text (n_generated : Z) (mode : str) : str :=
  if str_eqb mode (lit "fallback")
  then lit "**Generated " ++ str_of_int n_generated ++ lit " flashcards.** Mode: `"
       ++ mode ++ lit "`" ++ [LF; LF]
       ++ lit "**Note:** Using offline fallback generation (LLM disabled or unavailable)."
       ++ [LF; LF]
       ++ lit "Go to the **Quiz** tab to start practicing."
  else lit "**Generated " ++ str_of_int n_generated ++ lit " flashcards.** Mode: `"
       ++ mode ++ lit "`" ++ [LF; LF]
       ++ lit "Go to the **Quiz** tab to start practicing.".

(** [str(e).strip() or "Unknown error"] *)
Definition exception_message (e : exn) : str :=
  match strip e with
  | [] => lit "Unknown error"
  | (_ :: _) as m => m
  end.

Section Generate.

(** [cards_to_table] is imported from [flashcards]: any function from the
    cards to the rows of the table. *)
Variable cards_to_table : list Flashcard -> list (list str).

(** What follows the call: the [except] clause when it raised, the rest
    of the function when it returned. *)
Definition after_generate (outcome : GenOutcome) : UiOut :=
  match outcome with
  | Raised e =>
      let msg := exception_message e in
      ([], error_prefix ++ msg, msg, [])
  | Returned cards mode raw =>
      (cards_to_table cards, status_text (len cards) mode, raw, map asdict cards)
  end.

Definition ui_generate_prog (study_text : option str) (n_cards : Z)
    (style difficulty : str) (use_llm : bool) : UiProg :=
  let '(cleaned_text, err) := _preprocess_study_text study_text in
  match err with
  | Some ((_ :: _) as e) => Done ([], error_prefix ++ e, [], [])
  | _ =>
      CallGenerate (mkGenArgs cleaned_text n_cards style difficulty use_llm)
                   after_generate
  end.

Definition ui_generate (generate_flashcards : GenArgs -> GenOutcome)
    (study_text : option str) (n_cards : Z) (style difficulty : str)
    (use_llm : bool) : UiOut :=
  run generate_flashcards (ui_generate_prog study_text n_cards style difficulty use_llm).

End Generate.

(** ** The quiz session *)

(** The dictionary that [_quiz_init_state] builds has a fixed set of keys:
    it is a record.  The cards are the dictionaries of [asdict]; an entry of
    the history is a dictionary as well. *)
Record QuizState : Type := mkQuiz {
  cards : list Dict;
  idx : Z;
  revealed : bool;
  marked : bool;
  correct : Z;
  incorrect : Z;
  answered : Z;
  history : list Dict;
  finished : bool
}.

Definition set_idx (v : Z) (s : QuizState) : QuizState :=
  mkQuiz (cards s) v (revealed s) (marked s) (correct s) (incorrect s)
         (answered s) (history s) (finished s).
Definition set_revealed (v : bool) (s : QuizState) : QuizState :=
  mkQuiz (cards s) (idx s) v (marked s) (correct s) (incorrect s)
         (answered s) (history s) (finished s).
Definition set_marked (v : bool) (s : QuizState) : QuizState :=
  mkQuiz (cards s) (idx s) (revealed s) v (correct s) (incorrect s)
         (answered s) (history s) (finished s).
Definition set_correct (v : Z) (s : QuizState) : QuizState :=
  mkQuiz (cards s) (idx s) (revealed s) (marked s) v (incorrect s)
         (answered s) (history s) (finished s).
Definition set_incorrect (v : Z) (s : QuizState) : QuizState :=
  mkQuiz (cards s) (idx s) (revealed s) (marked s) (correct s) v
         (answered s) (history s) (finished s).
Definition set_answered (v : Z) (s : QuizState) : QuizState :=
  mkQuiz (cards s) (idx s) (revealed s) (marked s) (correct s) (incorrect s)
         v (history s) (finished s).
Definition set_history (v : list Dict) (s : QuizState) : QuizState :=
  mkQuiz (cards s) (idx s) (revealed s) (marked s) (correct s) (incorrect s)
         (answered s) v (finished s).
Definition set_finished (v : bool) (s : QuizState) : QuizState :=
  mkQuiz (cards s) (idx s) (revealed s) (marked s) (correct s) (incorrect s)
         (answered s) (history s) v.

Definition _quiz_init_state (cards_state : list Dict) : QuizState :=
  mkQuiz cards_state 0 false false 0 0 0 [] false.

Definition is_empty {A : Type} (l : list A) : bool :=
  match l with
  | [] => true
  | _ :: _ => false
  end.

(** What a quiz handler returns: the state, then the progress, question,
    score and feedback texts.  The state is [None] for the empty dictionary
    the page starts with. *)
Definition QuizOut : Type := (option QuizState * str * str * str * str)%type.

Definition state_of (o : QuizOut) : option QuizState :=
  let '(s, _, _, _, _) := o in s.
Definition progress_of (o : QuizOut) : str :=
  let '(_, p, _, _, _) := o in p.
Definition question_of (o : QuizOut) : str :=
  let '(_, _, q, _, _) := o in q.
Definition score_of (o : QuizOut) : str :=
  let '(_, _, _, sc, _) := o in sc.
Definition feedback_of (o : QuizOut) : str :=
  let '(_, _, _, _, f) := o in f.

(** The [except Exception as e] clause of the handlers: [quiz_state] is
    the state as the body left it when it raised. *)
Definition try_except (quiz_state : option QuizState) (body : Exc QuizOut) : QuizOut :=
  match body with
  | inr out => out
  | inl e => (quiz_state, [], [], [], error_prefix ++ e)
  end.

Definition msg_start_first : str := lit "**Error:** Start the quiz first.".
Definition msg_finished : str := lit "Quiz is finished.".
Definition msg_no_cards : str :=
  lit "**Error:** No flashcards yet. Generate flashcards first.".
Definition msg_already_marked : str :=
  lit "You already marked this question. Click **Next Question**.".

Section Quiz.

(** The text of [f"{correct / answered * 100.0:.1f}"] for a divisor that is
    not zero.  It is computed in floating point, which is left abstract. *)
Variable format_ratio : Z -> Z -> str.

(** The accuracy, before it is formatted. *)
Inductive Accuracy : Type :=
| AccZero                               (* the constant [0.0] *)
| AccRatio (correct answered : Z).      (* [correct / answered * 100.0] *)

(** [correct / answered * 100.0]: the division raises when the divisor
    is zero. *)
Definition ratio_percent (correct answered : Z) : Exc Accuracy :=
  if (answered =? 0)%Z then raise ZeroDivisionError
  else ret (AccRatio correct answered).

(** [f"{acc:.1f}"] *)
Definition format_accuracy (acc : Accuracy) : str :=
  match acc with
  | AccZero => lit "0.0"
  | AccRatio c a => format_ratio c a
  end.

Definition score_summary (correct incorrect answered : Z) (acc : Accuracy) : str :=
  lit "Correct: **" ++ str_of_int correct ++ lit "**" ++ [LF; LF]
  ++ lit "Incorrect: **" ++ str_of_int incorrect ++ lit "**" ++ [LF; LF]
  ++ lit "Total answered: **" ++ str_of_int answered ++ lit "**" ++ [LF; LF]
  ++ lit "Accuracy: **" ++ format_accuracy acc ++ lit "%**".

Definition _quiz_score_text (state : QuizState) : Exc str :=
  let answered := answered state in
  let correct := correct state in
  let incorrect := incorrect state in
  acc <- (if (answered =? 0)%Z then ret AccZero
          else ratio_percent correct answered) ;;
  ret (score_summary correct incorrect answered acc).

Definition _quiz_progress_text (state : QuizState) : str :=
  let cards := cards state in
  let idx := idx state in
  if is_empty cards then []
  else if finished state
  then lit "Finished! " ++ str_of_int (len cards) ++ lit " / " ++ str_of_int (len cards)
  else lit "Question " ++ str_of_int (idx + 1) ++ lit " / " ++ str_of_int (len cards).

Definition _quiz_current_question (state : QuizState) : Exc str :=
  let cards := cards state in
  let idx := idx state in
  if (is_empty cards || (idx <? 0) || (idx >=? len cards))%Z then ret []
  else card <- py_index cards idx ;; ret (dict_get card (lit "question") []).

Definition _quiz_current_answer (state : QuizState) : Exc str :=
  let cards := cards state in
  let idx := idx state in
  if (is_empty cards || (idx <? 0) || (idx >=? len cards))%Z then ret []
  else card <- py_index cards idx ;; ret (dict_get card (lit "answer") []).

(** [ui_start_quiz] has no [try]: an exception of its body would reach
    the caller. *)
Definition ui_start_quiz (cards_state : list Dict) : Exc QuizOut :=
  if is_empty cards_state
  then ret (Some (_quiz_init_state []), msg_no_cards, [], [], [])
  else
    let state := _quiz_init_state cards_state in
    question <- _quiz_current_question state ;;
    score <- _quiz_score_text state ;;
    ret (Some state, _quiz_progress_text state, question, score, []).

(** The return of a finished quiz, shared by the three handlers. *)
Definition finished_out (state : QuizState) : Exc QuizOut :=
  score <- _quiz_score_text state ;;
  ret (Some state, _quiz_progress_text state, [], score, msg_finished).

Definition ui_reveal_answer (quiz_state : option QuizState) : QuizOut :=
  match quiz_state with
  | None => (quiz_state, [], [], [], msg_start_first)
  | Some st =>
      if is_empty (cards st) then (quiz_state, [], [], [], msg_start_first)
      else if finished st then try_except quiz_state (finished_out st)
      else
        let st := set_revealed true st in
        try_except (Some st)
          (answer <- _quiz_current_answer st ;;
           question <- _quiz_current_question st ;;
           score <- _quiz_score_text st ;;
           ret (Some st, _quiz_progress_text st, question, score,
                lit "**Answer:** " ++ answer))
  end.

Definition history_entry (card : Dict) (is_correct : bool) : Dict :=
  [ (lit "question", dict_get card (lit "question") []);
    (lit "answer", dict_get card (lit "answer") []);
    (lit "type", dict_get card (lit "type") []);
    (lit "difficulty", dict_get card (lit "difficulty") []);
    (lit "result", if is_correct then lit "correct" else lit "incorrect") ].

Definition ui_mark_answer (quiz_state : option QuizState) (is_correct : bool) : QuizOut :=
  match quiz_state with
  | None => (quiz_state, [], [], [], msg_start_first)
  | Some st =>
      if is_empty (cards st) then (quiz_state, [], [], [], msg_start_first)
      else if finished st then try_except quiz_state (finished_out st)
      else if marked st then
        try_except quiz_state
          (question <- _quiz_current_question st ;;
           score <- _quiz_score_text st ;;
           ret (quiz_state, _quiz_progress_text st, question, score,
                msg_already_marked))
      else if ((idx st <? 0) || (idx st >=? len (cards st)))%Z then
        let st := set_finished true st in
        try_except (Some st) (finished_out st)
      else
        let st := set_answered (answered st + 1) st in
        let st := if is_correct then set_correct (correct st + 1) st
                  else set_incorrect (incorrect st + 1) st in
        let st := set_marked true st in
        (* the entry reads [cards[idx]] before it is appended *)
        match py_index (cards st) (idx st) with
        | inl e => (Some st, [], [], [], error_prefix ++ e)
        | inr card =>
            let st := set_history (history st ++ [history_entry card is_correct]) st in
            try_except (Some st)
              (question <- _quiz_current_question st ;;
               score <- _quiz_score_text st ;;
               ret (Some st, _quiz_progress_text st, question, score,
                    lit "Marked **"
                    ++ (if is_correct then lit "Correct" else lit "Incorrect")
                    ++ lit "**. Click **Next Question**."))
        end
  end.

Definition ui_next_question (quiz_state : option QuizState) : QuizOut :=
  match quiz_state with
  | None => (quiz_state, [], [], [], msg_start_first)
  | Some st =>
      if is_empty (cards st) then (quiz_state, [], [], [], msg_start_first)
      else if finished st then try_except quiz_state (finished_out st)
      else
        let st := set_idx (idx st + 1) st in
        let st := set_revealed false st in
        let st := set_marked false st in
        if (idx st >=? len (cards st))%Z then
          let st := set_finished true st in
          try_except (Some st) (finished_out st)
        else
          try_except (Some st)
            (question <- _quiz_current_question st ;;
             score <- _quiz_score_text st ;;
             ret (Some st, _quiz_progress_text st, question, score, []))
  end.

(** A user of the quiz page: the four buttons. *)
Inductive Action : Type :=
| Start (cards_state : list Dict)
| Reveal
| Mark (is_correct : bool)
| Next.

(** The stored quiz state after a click.  A handler that raises leaves
    the stored state as it was. *)
Definition click (quiz_state : option QuizState) (a : Action) : option QuizState :=
  match a with
  | Start cards_state =>
      match ui_start_quiz cards_state with
      | inr out => state_of out
      | inl _ => quiz_state
      end
  | Reveal => state_of (ui_reveal_answer quiz_state)
  | Mark is_correct => state_of (ui_mark_answer quiz_state is_correct)
  | Next => state_of (ui_next_question quiz_state)
  end.

Inductive reachable : option QuizState -> Prop :=
| reach_init : forall cards_state,
    reachable (Some (_quiz_init_state cards_state))
| reach_click : forall quiz_state a,
    reachable quiz_state -> reachable (click quiz_state a).

(** [n] clicks on the Next button. *)
Fixpoint next_times (n : nat) (quiz_state : option QuizState) : option QuizState :=
  match n with
  | O => quiz_state
  | S m => state_of (ui_next_question (next_times m quiz_state))
  end.

End Quiz.

(** ** Properties of texts and of quiz states *)

(** [run] is made of characters of the class [p]. *)
Definition run_of (p : char -> bool) (run : str) : Prop :=
  Forall (fun c => p c = true) run.

(** The text holds [k] or more consecutive characters of the class [p]. *)
Definition has_run (p : char -> bool) (k : nat) (t : str) : Prop :=
  exists l1 run l2, t = l1 ++ run ++ l2 /\ run_of p run /\ k <= length run.

(** A whitespace-normalized text: no carriage return and no tab, no two
    consecutive spaces or tabs, no three consecutive newlines, no
    whitespace at either end. *)
Definition normalized (t : str) : Prop :=
  ~ In CR t /\ ~ In TAB t
  /\ ~ has_run is_blank 2 t
  /\ ~ has_run is_newline 3 t
  /\ (forall c r, t = c :: r -> isspace c = false)
  /\ (forall c r, t = r ++ [c] -> isspace c = false).

(** The counters of a quiz state agree with each other and with the
    history. *)
Definition counters_consistent (s : QuizState) : Prop :=
  (answered s = correct s + incorrect s)%Z /\ len (history s) = answered s.

(** The question of a card, as the quiz reads it. *)
Definition question_text (card : Dict) : str := dict_get card (lit "question") [].

(** A study text of 120 letters, and a deck of two cards. *)
Definition long_word : str := repeat 97%N 120.

Definition card_a : Dict :=
  asdict (mkFlashcard (lit "qa") (lit "easy") (lit "Q1") (lit "A1")).
Definition card_b : Dict :=
  asdict (mkFlashcard (lit "cloze") (lit "hard") (lit "Q2") (lit "A2")).
Definition two_cards : list Dict := [card_a; card_b].

(** The study text is turned down by the preprocessing: it is missing, or
    its normalized form is empty or shorter than 120 characters. *)
Definition text_rejected (study_text : option str) : Prop :=
  match study_text with
  | None => True
  | Some raw => length (normalize raw) < 120
  end.

(** What the quiz shows for the current card: the text under [key] of the
    card at the cursor, nothing when the cursor is outside the cards. *)
Definition shown (key : str) (s : QuizState) : str :=
  if (is_empty (cards s) || (idx s <? 0) || (idx s >=? len (cards s)))%Z then []
  else match nth_error (cards s) (Z.to_nat (idx s)) with
       | Some card => dict_get card key []
       | None => []
       end.

(** The quiz state, as a property of the stored value. *)
Definition stored_consistent (quiz_state : option QuizState) : Prop :=
  match quiz_state with
  | Some s => counters_consistent s
  | None => True
  end.

(** ** The generation engine *)

Module Engine.

(** The module [flashcards] (the card schema, the deterministic generator
    and [generate_flashcards], the orchestrator) is not part of the sources
    at hand.  The definitions of this module follow sections 4.1, 4.2 and
    4.5 of the specification.  What the specification leaves open is a
    variable of the section below: which line is a header, the score of a
    sentence, how a sentence is rendered as a card in a style, and the
    remote path (credential, transport, parser). *)














Section Generator.

Variable is_header : str -> bool.
Variable score : str -> nat.
Variable render : str -> str -> Dict.










(** The remote path.  [complete] is [None] for any of the three failures of
    the transport, [parse] is [None] for an unparsable reply. *)
Variable has_credential : bool.
Variable complete : str -> Z -> str -> str -> option str.
Variable parse : str -> option (list Flashcard).
Variable short_tag : str.



End Generator.


End Engine.


(** ** Reading a PDF *)

(** [sep.join(l)] *)
Fixpoint join (sep : str) (l : list str) : str :=
  match l with
  | [] => []
  | x :: rest =>
      match rest with
      | [] => x
      | _ :: _ => x ++ sep ++ join sep rest
      end
  end.

(** What [page.extract_text()] does for one page: it raises, or it returns
    [None] or a string. *)
Inductive PageOutcome : Type :=
| PageRaises (e : exn)
| PageText (t : option str).

(** What [PdfReader(pdf_path)] does: it raises, or it gives a reader, whose
    [is_encrypted] is read and whose [pages] are a list or raise when they
    are asked for. *)
Inductive ReaderOutcome : Type :=
| ReaderRaises (e : exn)
| ReaderOpened (is_encrypted : bool) (pages : Exc (list PageOutcome)).

Definition msg_no_pdf : str := lit "No PDF file was provided.".
Definition msg_no_pypdf : str :=
  lit "PDF support is not installed. Please install dependencies from requirements.txt.".
Definition msg_encrypted : str :=
  lit "This PDF appears to be encrypted/password-protected and cannot be read.".
Definition msg_no_text : str :=
  lit "No extractable text was found in that PDF. "
  ++ lit "If it's a scanned document, you may need OCR before using this app.".
Definition msg_read_failed : str := lit "Failed to read PDF: ".
Definition msg_upload : str := lit "**Error:** Please upload a PDF file.".
Definition msg_loaded : str :=
  lit "**Loaded PDF text.** You can edit it before generating flashcards.".

(** [txt = page.extract_text() or ""], and [""] when the page raises. *)
Definition page_text (p : PageOutcome) : str :=
  match p with
  | PageRaises _ => []
  | PageText None => []
  | PageText (Some t) => t
  end.

(** [if txt.strip()]: the page has text to keep. *)
Definition has_text (txt : str) : bool := negb (is_empty (strip txt)).

(** The loop over the pages: the texts that are kept, in page order. *)
Definition page_chunks (pages : list PageOutcome) : list str :=
  filter has_text (map page_text pages).

Section Pdf.

(** Whether [from pypdf import PdfReader] succeeds, and the reader. *)
Variable pypdf_installed : bool.
Variable PdfReader : str -> ReaderOutcome.

Definition _extract_text_from_pdf (pdf_path : str) : option str * option str :=
  if is_empty pdf_path then (None, Some msg_no_pdf)
  else if negb pypdf_installed then (None, Some msg_no_pypdf)
  else
    match PdfReader pdf_path with
    | ReaderRaises e => (None, Some (msg_read_failed ++ e))
    | ReaderOpened is_encrypted pages =>
        if is_encrypted then (None, Some msg_encrypted)
        else
          match pages with
          | inl e => (None, Some (msg_read_failed ++ e))
          | inr pages =>
              let text := join [LF; LF] (page_chunks pages) in
              let text := strip (re_sub_run is_newline 3 [LF; LF] text) in
              match text with
              | [] => (None, Some msg_no_text)
              | _ :: _ => (Some text, None)
              end
          end
    end.

(** The uploaded file, as [ui_load_pdf] reads it: its attribute [name],
    when it has one, and [str(pdf_file)]. *)
Record UploadedFile : Type := mkUpload {
  file_name : option str;
  file_str : str
}.

(** [getattr(pdf_file, "name", None) or str(pdf_file)] *)
Definition upload_path (f : UploadedFile) : str :=
  match file_name f with
  | Some ((_ :: _) as name) => name
  | _ => file_str f
  end.

(** [ui_load_pdf]: the text for the textbox and the status. *)
Definition ui_load_pdf (pdf_file : option UploadedFile) : str * str :=
  match pdf_file with
  | None => ([], msg_upload)
  | Some f =>
      let '(text, err) := _extract_text_from_pdf (upload_path f) in
      match err with
      | Some ((_ :: _) as e) => ([], error_prefix ++ e)
      | _ =>
          (match text with
           | Some t => t
           | None => []
           end, msg_loaded)
      end
  end.

End Pdf.

(** ** Sessions of several clicks *)

(** The stored state after a list of clicks. *)
Definition clicks (format_ratio : Z -> Z -> str)
    (quiz_state : option QuizState) (l : list Action) : option QuizState :=
  fold_left (click format_ratio) l quiz_state.

Definition is_start (a : Action) : bool :=
  match a with
  | Start _ => true
  | _ => false
  end.

(** The user marks each question and goes on to the next one. *)
Definition answer_all (format_ratio : Z -> Z -> str)
    (answers : list bool) (quiz_state : option QuizState) : option QuizState :=
  fold_left (fun s b => click format_ratio (click format_ratio s (Mark b)) Next)
            answers quiz_state.

(** The entries that the answers make of the cards, in order. *)
Fixpoint entries (cards : list Dict) (answers : list bool) : list Dict :=
  match cards, answers with
  | card :: cards', b :: answers' => history_entry card b :: entries cards' answers'
  | _, _ => []
  end.

Definition count_true (answers : list bool) : Z :=
  len (filter (fun b => b) answers).
Definition count_false (answers : list bool) : Z :=
  len (filter negb answers).

(** The entries of the history with a given result. *)
Definition count_results (result : str) (history : list Dict) : Z :=
  len (filter (fun h => str_eqb (dict_get h (lit "result") []) result) history).

(** The cursor and the counters of a session fit its cards. *)
Definition session_well_formed (s : QuizState) : Prop :=
  (0 <= idx s <= len (cards s))%Z
  /\ (finished s = true <-> cards s <> [] /\ idx s = len (cards s))
  /\ (marked s = true -> (idx s < len (cards s))%Z)
  /\ (0 <= correct s)%Z /\ (0 <= incorrect s)%Z
  /\ (answered s <= idx s + (if marked s then 1 else 0))%Z.

(** The history is made of the cards and agrees with the score. *)
Definition history_agrees (s : QuizState) : Prop :=
  count_results (lit "correct") (history s) = correct s
  /\ count_results (lit "incorrect") (history s) = incorrect s
  /\ forall h, In h (history s) ->
       exists card b, In card (cards s) /\ h = history_entry card b.

Definition stored (P : QuizState -> Prop) (quiz_state : option QuizState) : Prop :=
  match quiz_state with
  | Some s => P s
  | None => True
  end.

(** A character that [strip] does not remove. *)
Definition visible (c : char) : bool := negb (isspace c).

(** A text of 120 letters and a word, with untidy whitespace, and the same
    text tidied. *)
Definition messy_text : str :=
  [SP; TAB] ++ long_word ++ [SP; SP; CR; LF; LF; LF; LF] ++ lit "end" ++ [LF].
Definition tidy_text : str := long_word ++ [SP; LF; LF] ++ lit "end".

(** The cards state among the four values of [ui_generate]. *)
Definition cards_state_of (out : UiOut) : list Dict :=
  let '(_, _, _, cards_state) := out in cards_state.

Definition status_of (out : UiOut) : str :=
  let '(_, status, _, _) := out in status.

(** The page yields text that the loop keeps. *)
Definition page_has_text (p : PageOutcome) : bool := has_text (page_text p).

(** A text with its line ends written the Windows way (CR LF) and the old
    Mac way (CR). *)
Definition to_crlf (s : str) : str :=
  flat_map (fun c => if N.eqb c LF then [CR; LF] else [c]) s.
Definition to_cr (s : str) : str :=
  map (fun c => if N.eqb c LF then CR else c) s.

(** * Properties *)

(** ** Runs of characters *)

Section Runs.

Variable p : char -> bool.

Lemma prefix_run_le_length (s : str) : prefix_run p s <= length s.
Proof.
  induction s as [|c s IH]; simpl; [lia|].
  destruct (p c); lia.
Qed.

Lemma longest_run_le_length (s : str) : longest_run p s <= length s.
Proof.
  induction s as [|c s IH]; [simpl; lia|].
  change (longest_run p (c :: s))
    with (Nat.max (prefix_run p (c :: s)) (longest_run p s)).
  pose proof (prefix_run_le_length (c :: s)) as H.
  simpl length in *. lia.
Qed.

Lemma prefix_run_app_stop (l : str) (c : char) (x : str) :
  p c = false -> prefix_run p (l ++ c :: x) = prefix_run p l.
Proof.
  intros Hc. induction l as [|a l IH]; simpl.
  - now rewrite Hc.
  - destruct (p a); [f_equal; exact IH | reflexivity].
Qed.

Lemma longest_run_cons (c : char) (s : str) :
  longest_run p (c :: s) = Nat.max (prefix_run p (c :: s)) (longest_run p s).
Proof. reflexivity. Qed.

Lemma longest_run_app_stop (l : str) (c : char) (x : str) :
  p c = false ->
  longest_run p (l ++ c :: x) = Nat.max (longest_run p l) (longest_run p x).
Proof.
  intros Hc. induction l as [|a l IH].
  - simpl. now rewrite Hc.
  - change ((a :: l) ++ c :: x) with (a :: (l ++ c :: x)).
    rewrite !longest_run_cons, IH.
    change (a :: l ++ c :: x) with ((a :: l) ++ c :: x).
    rewrite prefix_run_app_stop by exact Hc. lia.
Qed.

Lemma prefix_run_app_l (l1 l2 : str) :
  prefix_run p l1 <= prefix_run p (l1 ++ l2).
Proof.
  induction l1 as [|a l IH]; simpl; [lia|].
  destruct (p a); lia.
Qed.

Lemma longest_run_app_l (l1 l2 : str) :
  longest_run p l1 <= longest_run p (l1 ++ l2).
Proof.
  induction l1 as [|a l IH]; [simpl; lia|].
  change ((a :: l) ++ l2) with (a :: (l ++ l2)).
  rewrite !longest_run_cons.
  pose proof (prefix_run_app_l (a :: l) l2) as H.
  change ((a :: l) ++ l2) with (a :: (l ++ l2)) in H. lia.
Qed.

Lemma longest_run_app_r (l1 l2 : str) :
  longest_run p l2 <= longest_run p (l1 ++ l2).
Proof.
  induction l1 as [|a l IH]; [simpl; lia|].
  change ((a :: l) ++ l2) with (a :: (l ++ l2)).
  rewrite longest_run_cons. lia.
Qed.

Lemma longest_run_infix (l1 m l2 : str) :
  longest_run p m <= longest_run p (l1 ++ m ++ l2).
Proof.
  pose proof (longest_run_app_r l1 (m ++ l2)).
  pose proof (longest_run_app_l m l2). lia.
Qed.

Lemma prefix_run_all (run l2 : str) :
  Forall (fun c => p c = true) run -> length run <= prefix_run p (run ++ l2).
Proof.
  induction 1 as [|a run Ha _ IH]; simpl; [lia|].
  rewrite Ha. lia.
Qed.

Lemma prefix_le_longest (s : str) : prefix_run p s <= longest_run p s.
Proof.
  destruct s as [|c s]; [simpl; lia|].
  rewrite longest_run_cons. lia.
Qed.

(** A bound on the longest run bounds every run inside the text. *)
Lemma longest_run_bounds_runs (s : str) (k : nat) :
  longest_run p s < k ->
  forall l1 run l2, s = l1 ++ run ++ l2 ->
    Forall (fun c => p c = true) run -> length run < k.
Proof.
  intros Hk l1 run l2 -> Hrun.
  pose proof (prefix_run_all run l2 Hrun).
  pose proof (prefix_le_longest (run ++ l2)).
  pose proof (longest_run_app_r l1 (run ++ l2)). lia.
Qed.

Lemma longest_run_none (l : str) :
  Forall (fun c => p c = false) l -> longest_run p l = 0.
Proof.
  induction 1 as [|a l Ha _ IH]; [reflexivity|].
  rewrite longest_run_cons, IH. simpl. now rewrite Ha.
Qed.

Lemma longest_run_skip (l x : str) :
  Forall (fun c => p c = false) l -> longest_run p (l ++ x) = longest_run p x.
Proof.
  induction 1 as [|a l Ha _ IH]; [reflexivity|].
  change ((a :: l) ++ x) with (a :: (l ++ x)).
  rewrite longest_run_cons, IH. simpl. now rewrite Ha.
Qed.

End Runs.

(** ** The substitution of runs *)

Section Substitution.

Variable cls : char -> bool.
Variable least : nat.
Variable repl : str.

Lemma flush_length (run : str) :
  length (flush least repl run) <= Nat.max (length repl) (least - 1).
Proof.
  unfold flush. destruct run as [|a run]; [simpl; lia|].
  destruct (Nat.leb_spec least (length (a :: run))); lia.
Qed.

Lemma flush_In (run : str) (x : char) :
  In x (flush least repl run) -> In x repl \/ In x run.
Proof.
  unfold flush. destruct run as [|a run]; [simpl; tauto|].
  destruct (least <=? length (a :: run)); tauto.
Qed.

(** Every character written comes from the text or from the replacement. *)
Lemma re_sub_scan_In (s run : str) (x : char) :
  In x (re_sub_scan cls least repl run s) ->
  In x repl \/ In x run \/ In x s.
Proof.
  revert run. induction s as [|c s IH]; intros run; simpl.
  - intros H. apply flush_In in H. tauto.
  - destruct (cls c) eqn:Hc.
    + intros H. apply IH in H. rewrite in_app_iff in H. simpl in H. tauto.
    + rewrite in_app_iff. simpl. intros [H | [H | H]].
      * apply flush_In in H. tauto.
      * tauto.
      * apply IH in H. simpl in H. tauto.
Qed.

(** No run of the class longer than the replacement, or than a run too
    short to match, is left. *)
Lemma re_sub_scan_longest_run (s run : str) :
  longest_run cls (re_sub_scan cls least repl run s)
  <= Nat.max (length repl) (least - 1).
Proof.
  revert run. induction s as [|c s IH]; intros run; simpl.
  - pose proof (longest_run_le_length cls (flush least repl run)).
    pose proof (flush_length run). lia.
  - destruct (cls c) eqn:Hc; [apply IH|].
    rewrite longest_run_app_stop by exact Hc.
    pose proof (longest_run_le_length cls (flush least repl run)).
    pose proof (flush_length run). specialize (IH []). lia.
Qed.

(** Runs of another class [q], disjoint from the class of the pattern and
    from the replacement, are left as they were. *)
Variable q : char -> bool.
Hypothesis q_cls : forall c, cls c = true -> q c = false.
Hypothesis q_repl : Forall (fun c => q c = false) repl.
Hypothesis repl_nonempty : repl <> [].

Lemma flush_no_q (run : str) :
  Forall (fun c => q c = false) run ->
  Forall (fun c => q c = false) (flush least repl run).
Proof.
  intros H. unfold flush. destruct run; [constructor|].
  destruct (least <=? _); assumption.
Qed.

Lemma flush_nonempty (run : str) : run <> [] -> flush least repl run <> [].
Proof.
  unfold flush. destruct run; [congruence|]. intros _.
  destruct (least <=? _); [assumption | discriminate].
Qed.

Lemma prefix_run_pending (s run : str) :
  run <> [] -> Forall (fun c => q c = false) run ->
  prefix_run q (re_sub_scan cls least repl run s) = 0.
Proof.
  revert run. induction s as [|c s IH]; intros run Hne Hrun; simpl.
  - pose proof (flush_no_q run Hrun) as Hf. pose proof (flush_nonempty run Hne) as Hn.
    destruct (flush least repl run) as [|a f]; [congruence|].
    inversion Hf as [|? ? Ha _]; subst. simpl. now rewrite Ha.
  - destruct (cls c) eqn:Hc.
    + apply IH.
      * destruct run; discriminate.
      * apply Forall_app. split; [assumption|].
        constructor; [now apply q_cls | constructor].
    + pose proof (flush_no_q run Hrun) as Hf. pose proof (flush_nonempty run Hne) as Hn.
      destruct (flush least repl run) as [|a f]; [congruence|].
      inversion Hf as [|? ? Ha _]; subst. simpl. now rewrite Ha.
Qed.

Lemma re_sub_scan_keeps_runs (s run : str) :
  Forall (fun c => q c = false) run ->
  longest_run q (re_sub_scan cls least repl run s) <= longest_run q s
  /\ (run = [] ->
      prefix_run q (re_sub_scan cls least repl run s) <= prefix_run q s).
Proof.
  revert run. induction s as [|c s IH]; intros run Hrun.
  - simpl. rewrite (longest_run_none q _ (flush_no_q run Hrun)).
    split; [lia|]. intros ->. simpl. lia.
  - cbn [re_sub_scan]. destruct (cls c) eqn:Hc.
    + assert (Hrun' : Forall (fun c => q c = false) (run ++ [c])).
      { apply Forall_app. split; [assumption|].
        constructor; [now apply q_cls | constructor]. }
      destruct (IH _ Hrun') as [IH1 _]. rewrite longest_run_cons. split; [lia|].
      intros _. rewrite prefix_run_pending; [lia| |assumption].
      destruct run; discriminate.
    + destruct (IH [] (Forall_nil _)) as [IH1 IH2]. specialize (IH2 eq_refl).
      rewrite (longest_run_skip q _ _ (flush_no_q run Hrun)).
      rewrite !longest_run_cons. simpl prefix_run.
      split.
      * destruct (q c); lia.
      * intros ->. simpl. destruct (q c); lia.
Qed.

End Substitution.

(** ** Replacing and trimming *)

Lemma replace_CR_from (s : str) : ~ In CR (replace_from [CR] [LF] 0 s).
Proof.
  induction s as [|c s IH]; [intros []|].
  cbn [replace_from starts_with]. rewrite andb_true_r.
  destruct (N.eqb_spec CR c) as [E|E].
  - cbn. intros [H|H]; [discriminate H | exact (IH H)].
  - intros [H|H]; [congruence | exact (IH H)].
Qed.

Lemma replace_CR (s : str) : ~ In CR (replace [CR] [LF] s).
Proof. apply replace_CR_from. Qed.

Lemma lstrip_suffix (s : str) : exists l1, s = l1 ++ lstrip s.
Proof.
  induction s as [|c s [l1 IH]]; [now exists []|].
  simpl. destruct (isspace c).
  - exists (c :: l1). simpl. now f_equal.
  - now exists [].
Qed.

Lemma lstrip_head (s : str) (c : char) (r : str) :
  lstrip s = c :: r -> isspace c = false.
Proof.
  induction s as [|a s IH]; simpl; [discriminate|].
  destruct (isspace a) eqn:Ha; [exact IH|].
  intros E. injection E as -> _. exact Ha.
Qed.

Lemma rstrip_prefix (s : str) : exists l2, s = rstrip s ++ l2.
Proof.
  unfold rstrip. destruct (lstrip_suffix (rev s)) as [l1 E].
  exists (rev l1). rewrite <- rev_app_distr, <- E. now rewrite rev_involutive.
Qed.

Lemma rstrip_last (s : str) (c : char) (r : str) :
  rstrip s = r ++ [c] -> isspace c = false.
Proof.
  unfold rstrip. intros E. apply (f_equal (@rev char)) in E.
  rewrite rev_involutive, rev_app_distr in E. simpl in E.
  exact (lstrip_head _ _ _ E).
Qed.

(** The trimmed text is a piece of the text. *)
Lemma strip_infix (s : str) : exists l1 l2, s = l1 ++ strip s ++ l2.
Proof.
  unfold strip. destruct (lstrip_suffix s) as [l1 E1].
  destruct (rstrip_prefix (lstrip s)) as [l2 E2].
  exists l1, l2. now rewrite <- E2.
Qed.

Lemma strip_head (s : str) (c : char) (r : str) :
  strip s = c :: r -> isspace c = false.
Proof.
  unfold strip. intros E. destruct (rstrip_prefix (lstrip s)) as [l2 E2].
  rewrite E in E2. exact (lstrip_head s _ _ E2).
Qed.

Lemma strip_last (s : str) (c : char) (r : str) :
  strip s = r ++ [c] -> isspace c = false.
Proof. unfold strip. apply rstrip_last. Qed.

Lemma strip_In (s : str) (x : char) : In x (strip s) -> In x s.
Proof.
  destruct (strip_infix s) as (l1 & l2 & E). intros H. rewrite E.
  rewrite !in_app_iff. tauto.
Qed.

Lemma strip_longest_run (p : char -> bool) (s : str) :
  longest_run p (strip s) <= longest_run p s.
Proof.
  destruct (strip_infix s) as (l1 & l2 & E). rewrite E at 2.
  apply longest_run_infix.
Qed.

Lemma no_has_run (p : char -> bool) (k : nat) (t : str) :
  longest_run p t < k -> ~ has_run p k t.
Proof.
  intros Hk (l1 & run & l2 & E & Hrun & Hlen).
  pose proof (longest_run_bounds_runs p t k Hk l1 run l2 E Hrun). lia.
Qed.

(** ** The normalized text *)

Lemma newline_not_blank (c : char) : is_newline c = true -> is_blank c = false.
Proof.
  unfold is_newline, is_blank. intros H. apply N.eqb_eq in H. now subst.
Qed.

Lemma flush_blank_no_tab (run : str) : ~ In TAB (flush 1 [SP] run).
Proof.
  unfold flush. destruct run as [|a run]; [intros []|].
  simpl. intros [H|[]]. discriminate H.
Qed.

(** The substitution of [[\t ]+] leaves no tab. *)
Lemma blank_sub_no_tab (s run : str) :
  ~ In TAB (re_sub_scan is_blank 1 [SP] run s).
Proof.
  revert run. induction s as [|c s IH]; intros run.
  - apply flush_blank_no_tab.
  - cbn [re_sub_scan]. destruct (is_blank c) eqn:Hc; [apply IH|].
    rewrite in_app_iff. intros [H|[H|H]].
    + exact (flush_blank_no_tab _ H).
    + subst c. discriminate Hc.
    + exact (IH _ H).
Qed.

Lemma normalize_normalized (raw : str) : normalized (normalize raw).
Proof.
  unfold normalize, re_sub_run.
  set (t1 := replace [CR] [LF] (replace [CR; LF] [LF] raw)).
  set (t2 := re_sub_scan is_blank 1 [SP] [] t1).
  set (t3 := re_sub_scan is_newline 3 [LF; LF] [] t2).
  assert (H1 : ~ In CR t1) by apply replace_CR.
  assert (H2 : ~ In CR t2).
  { intros H. apply re_sub_scan_In in H. simpl in H.
    destruct H as [[H|[]]|[[]|H]]; [discriminate H | exact (H1 H)]. }
  assert (B2 : longest_run is_blank t2 <= 1).
  { exact (re_sub_scan_longest_run is_blank 1 [SP] t1 []). }
  assert (T2 : ~ In TAB t2) by apply blank_sub_no_tab.
  assert (H3 : ~ In CR t3).
  { intros H. apply re_sub_scan_In in H. simpl in H.
    destruct H as [[H|[H|[]]]|[[]|H]];
      [discriminate H | discriminate H | exact (H2 H)]. }
  assert (T3 : ~ In TAB t3).
  { intros H. apply re_sub_scan_In in H. simpl in H.
    destruct H as [[H|[H|[]]]|[[]|H]];
      [discriminate H | discriminate H | exact (T2 H)]. }
  assert (B3 : longest_run is_blank t3 <= 1).
  { assert (Hq : Forall (fun c => is_blank c = false) [LF; LF])
      by (repeat constructor).
    assert (Hne : [LF; LF] <> []) by discriminate.
    destruct (re_sub_scan_keeps_runs is_newline 3 [LF; LF] is_blank
                newline_not_blank Hq Hne t2 [] (Forall_nil _)) as [H _].
    fold t3 in H. lia. }
  assert (N3 : longest_run is_newline t3 <= 2).
  { exact (re_sub_scan_longest_run is_newline 3 [LF; LF] t2 []). }
  repeat split.
  - intros H. exact (H3 (strip_In _ _ H)).
  - intros H. exact (T3 (strip_In _ _ H)).
  - apply no_has_run. pose proof (strip_longest_run is_blank t3). lia.
  - apply no_has_run. pose proof (strip_longest_run is_newline t3). lia.
  - intros c r E. exact (strip_head _ _ _ E).
  - intros c r E. exact (strip_last _ _ _ E).
Qed.

(** ** Preprocessing and generation *)

Lemma preprocess_cases (raw : str) :
  _preprocess_study_text (Some raw) =
  match normalize raw with
  | [] => (None, Some msg_empty)
  | _ :: _ =>
      if length (normalize raw) <? 120 then (None, Some msg_short)
      else (Some (normalize raw), None)
  end.
Proof.
  unfold _preprocess_study_text, min_chars.
  destruct (normalize raw) as [|c t]; [reflexivity|].
  destruct (Z.ltb_spec (Z.of_nat (length (c :: t))) 120);
    destruct (Nat.ltb_spec (length (c :: t)) 120); try reflexivity; lia.
Qed.

(** C3.  [_preprocess_study_text] enforces the minimum of 120 characters:
    a text whose normalized form is not empty but shorter than 120
    characters gives [(None, error message)], a text whose normalized form
    has 120 characters or more gives [(clean_text, None)], where
    [clean_text] is the normalized form. *)
Theorem preprocess_enforces_minimum_length (raw : str) :
  (normalize raw <> [] -> length (normalize raw) < 120 ->
   _preprocess_study_text (Some raw) = (None, Some msg_short))
  /\ (120 <= length (normalize raw) ->
      _preprocess_study_text (Some raw) = (Some (normalize raw), None)).
Proof.
  rewrite preprocess_cases. split.
  - intros Hne Hlt. destruct (normalize raw) as [|c t]; [congruence|].
    destruct (Nat.ltb_spec (length (c :: t)) 120); [reflexivity | lia].
  - intros Hge. destruct (normalize raw) as [|c t]; [simpl in Hge; lia|].
    destruct (Nat.ltb_spec (length (c :: t)) 120); [lia | reflexivity].
Qed.

Lemma preprocess_enforces_minimum_length_witness :
  _preprocess_study_text (Some (lit " short note ")) = (None, Some msg_short)
  /\ _preprocess_study_text (Some long_word) = (Some long_word, None).
Proof.
  split.
  - apply (proj1 (preprocess_enforces_minimum_length (lit " short note "))).
    + vm_compute. discriminate.
    + vm_compute. lia.
  - change (Some long_word) with (Some (normalize long_word)) at 2.
    apply (proj2 (preprocess_enforces_minimum_length long_word)).
    vm_compute. lia.
Defined.

Lemma preprocess_accepts (raw clean : str) :
  _preprocess_study_text (Some raw) = (Some clean, None) ->
  clean = normalize raw /\ 120 <= length clean.
Proof.
  rewrite preprocess_cases. destruct (normalize raw) as [|c t]; [discriminate|].
  destruct (Nat.ltb_spec (length (c :: t)) 120); [discriminate|].
  intros E. injection E as <-. split; [reflexivity | assumption].
Qed.

(** C5.  The cleaned text that preprocessing accepts, and that
    [ui_generate] hands to the generator, is whitespace-normalized: no
    carriage return or tab, no run of two or more spaces or tabs, no run of
    three or more newlines, no whitespace at either end. *)
Theorem cleaned_text_is_normalized
    (cards_to_table : list Flashcard -> list (list str))
    (raw clean : str) (n_cards : Z) (style difficulty : str) (use_llm : bool) :
  _preprocess_study_text (Some raw) = (Some clean, None) ->
  normalized clean
  /\ ui_generate_prog cards_to_table (Some raw) n_cards style difficulty use_llm
     = CallGenerate (mkGenArgs (Some clean) n_cards style difficulty use_llm)
                    (after_generate cards_to_table).
Proof.
  intros H. split.
  - destruct (preprocess_accepts raw clean H) as [-> _].
    apply normalize_normalized.
  - unfold ui_generate_prog. now rewrite H.
Qed.

Lemma cleaned_text_is_normalized_witness :
  normalized long_word
  /\ ui_generate_prog (fun _ => []) (Some long_word) 10 (lit "Q/A") (lit "medium") true
     = CallGenerate (mkGenArgs (Some long_word) 10 (lit "Q/A") (lit "medium") true)
                    (after_generate (fun _ => [])).
Proof.
  apply (cleaned_text_is_normalized (fun _ => []) long_word long_word).
  vm_compute. reflexivity.
Defined.

Lemma error_messages_nonempty :
  msg_none <> [] /\ msg_empty <> [] /\ msg_short <> [].
Proof. repeat split; discriminate. Qed.

Lemma exception_message_nonempty (e : exn) : exception_message e <> [].
Proof.
  unfold exception_message. destruct (strip e); intros H; [vm_compute in H|]; discriminate H.
Qed.

Lemma preprocess_result (study_text : option str) :
  (exists e, e <> [] /\ _preprocess_study_text study_text = (None, Some e))
  \/ (exists raw, study_text = Some raw
                  /\ 120 <= length (normalize raw)
                  /\ _preprocess_study_text study_text = (Some (normalize raw), None)).
Proof.
  destruct study_text as [raw|].
  - rewrite preprocess_cases. destruct (normalize raw) as [|c t] eqn:E.
    + left. exists msg_empty. split; [discriminate | reflexivity].
    + destruct (Nat.ltb_spec (length (c :: t)) 120).
      * left. exists msg_short. split; [discriminate | reflexivity].
      * right. exists raw. rewrite E. auto.
  - left. exists msg_none. split; [discriminate | reflexivity].
Qed.

(** C1.  [ui_generate] returns its four values whatever the study text and
    whatever the generator does.  Either the text is turned down and the
    result is an error status with an empty table and empty cards; or the
    generator is called once, and when that call raises, the exception is
    turned into an error status, with an empty table and empty cards. *)
Theorem ui_generate_never_raises
    (cards_to_table : list Flashcard -> list (list str))
    (generate_flashcards : GenArgs -> GenOutcome)
    (study_text : option str) (n_cards : Z) (style difficulty : str)
    (use_llm : bool) :
  let out := ui_generate cards_to_table generate_flashcards
                         study_text n_cards style difficulty use_llm in
  (exists e, e <> [] /\ out = ([], error_prefix ++ e, [], []))
  \/ (exists args,
        ui_generate_prog cards_to_table study_text n_cards style difficulty use_llm
        = CallGenerate args (after_generate cards_to_table)
        /\ match generate_flashcards args with
           | Raised e =>
               exception_message e <> []
               /\ out = ([], error_prefix ++ exception_message e,
                         exception_message e, [])
           | Returned cards mode raw =>
               out = (cards_to_table cards, status_text (len cards) mode, raw,
                      map asdict cards)
           end).
Proof.
  intros out. subst out. unfold ui_generate, ui_generate_prog.
  destruct (preprocess_result study_text) as [(e & Hne & E)|(raw & _ & _ & E)];
    rewrite E.
  - left. exists e. destruct e as [|c e]; [congruence|]. split; [assumption|].
    reflexivity.
  - right. eexists. split; [reflexivity|]. cbn [run g_text].
    destruct (generate_flashcards _) as [e|cs mode rawout]; cbn [after_generate].
    + split; [apply exception_message_nonempty | reflexivity].
    + reflexivity.
Qed.

(** C2, as amended.  A study text that is missing, empty after
    normalization or shorter than 120 characters is answered with an error
    message and the generator is not called, whatever the card count.  The
    card count is not checked: when the text is accepted the generator is
    called with the count as it was given. *)
Theorem validation_error_before_generation
    (cards_to_table : list Flashcard -> list (list str))
    (study_text : option str) (n_cards : Z) (style difficulty : str)
    (use_llm : bool) :
  let p := ui_generate_prog cards_to_table study_text n_cards style difficulty use_llm in
  (text_rejected study_text ->
   invokes_generator p = false
   /\ exists e, e <> [] /\ p = Done ([], error_prefix ++ e, [], []))
  /\ (~ text_rejected study_text ->
      exists clean,
        p = CallGenerate (mkGenArgs (Some clean) n_cards style difficulty use_llm)
                         (after_generate cards_to_table)).
Proof.
  intros p. subst p. unfold ui_generate_prog.
  destruct (preprocess_result study_text) as [(e & Hne & E)|(raw & -> & Hlen & E)];
    rewrite E.
  - split.
    + intros _. destruct e as [|c e]; [congruence|]. split; [reflexivity|].
      eexists. split; [|reflexivity]. discriminate.
    + intros Hacc. exfalso. apply Hacc. destruct study_text as [raw|]; [|exact I].
      simpl. rewrite preprocess_cases in E.
      destruct (normalize raw) as [|c t]; [simpl; lia|].
      destruct (Nat.ltb_spec (length (c :: t)) 120); [assumption | discriminate].
  - split.
    + simpl. intros Hrej. lia.
    + intros _. eexists. reflexivity.
Qed.

Lemma validation_error_before_generation_witness :
  (invokes_generator
     (ui_generate_prog (fun _ => []) (Some (lit " short note ")) 50
                       (lit "Q/A") (lit "medium") true) = false
   /\ exists e, e <> []
        /\ ui_generate_prog (fun _ => []) (Some (lit " short note ")) 50
                            (lit "Q/A") (lit "medium") true
           = Done ([], error_prefix ++ e, [], []))
  /\ exists clean,
       ui_generate_prog (fun _ => []) (Some long_word) 50 (lit "Q/A") (lit "medium") true
       = CallGenerate (mkGenArgs (Some clean) 50 (lit "Q/A") (lit "medium") true)
                      (after_generate (fun _ => [])).
Proof.
  split.
  - apply (proj1 (validation_error_before_generation
                    (fun _ => []) (Some (lit " short note ")) 50
                    (lit "Q/A") (lit "medium") true)).
    vm_compute. lia.
  - apply (proj2 (validation_error_before_generation
                    (fun _ => []) (Some long_word) 50
                    (lit "Q/A") (lit "medium") true)).
    vm_compute. lia.
Defined.

(** C2, as stated, fails: a card count outside 3 to 30 is no validation
    error.  With an accepted text and a count of 0 the generator is
    called. *)
Lemma card_count_is_not_validated :
  ~ (3 <= 0 <= 30)%Z
  /\ invokes_generator
       (ui_generate_prog (fun _ => []) (Some long_word) 0
                         (lit "Q/A") (lit "medium") false) = true
  /\ ui_generate_prog (fun _ => []) (Some long_word) 0 (lit "Q/A") (lit "medium") false
     = CallGenerate (mkGenArgs (Some long_word) 0 (lit "Q/A") (lit "medium") false)
                    (after_generate (fun _ => [])).
Proof.
  split; [lia|]. split; vm_compute; reflexivity.
Qed.

(** ** The quiz *)

Lemma py_index_in_range {A : Type} (l : list A) (i : Z) :
  (0 <= i < len l)%Z ->
  exists x, nth_error l (Z.to_nat i) = Some x /\ py_index l i = inr x.
Proof.
  intros [H0 H1]. unfold py_index.
  destruct (Z.ltb_spec i 0); [lia|].
  destruct (Z.leb_spec 0 i); [|lia].
  destruct (Z.ltb_spec i (len l)); [|lia]. cbn [andb].
  destruct (nth_error l (Z.to_nat i)) as [x|] eqn:E.
  - exists x. split; reflexivity.
  - apply nth_error_None in E. unfold len in H1. lia.
Qed.

Lemma is_empty_false {A : Type} (l : list A) : l <> [] -> is_empty l = false.
Proof. destruct l; [congruence | reflexivity]. Qed.

Lemma is_empty_len {A : Type} (l : list A) : is_empty l = false -> (0 < len l)%Z.
Proof. destruct l; [discriminate|]. unfold len. simpl length. lia. Qed.

Section QuizProperties.

Variable format_ratio : Z -> Z -> str.

Local Abbreviation score_text := (_quiz_score_text format_ratio).

(** The score, in one expression: the division is taken only when
    [answered] is not zero. *)
Lemma score_text_value (s : QuizState) :
  score_text s
  = inr (score_summary format_ratio (correct s) (incorrect s) (answered s)
           (if (answered s =? 0)%Z then AccZero
            else AccRatio (correct s) (answered s))).
Proof.
  unfold _quiz_score_text, ratio_percent.
  destruct (answered s =? 0)%Z; reflexivity.
Qed.

Lemma current_text_value (key : str) (s : QuizState) :
  (if (is_empty (cards s) || (idx s <? 0) || (idx s >=? len (cards s)))%Z
   then ret []
   else card <- py_index (cards s) (idx s) ;; ret (dict_get card key []))
  = inr (shown key s).
Proof.
  unfold shown.
  destruct (is_empty (cards s) || (idx s <? 0) || (idx s >=? len (cards s)))%Z eqn:G;
    [reflexivity|].
  apply orb_false_iff in G. destruct G as [G G3].
  apply orb_false_iff in G. destruct G as [G1 G2].
  destruct (py_index_in_range (cards s) (idx s)) as (card & E1 & E2); [lia|].
  rewrite E1, E2. reflexivity.
Qed.

Lemma current_question_value (s : QuizState) :
  _quiz_current_question s = inr (shown (lit "question") s).
Proof. apply current_text_value. Qed.

Lemma current_answer_value (s : QuizState) :
  _quiz_current_answer s = inr (shown (lit "answer") s).
Proof. apply current_text_value. Qed.

Lemma finished_out_value (s : QuizState) :
  exists score,
    finished_out format_ratio s
    = inr (Some s, _quiz_progress_text s, [], score, msg_finished).
Proof.
  unfold finished_out. rewrite score_text_value. eexists. reflexivity.
Qed.

Ltac handlers :=
  repeat first
    [ rewrite score_text_value
    | rewrite current_question_value
    | rewrite current_answer_value ];
  cbn [bind ret try_except state_of progress_of question_of score_of feedback_of].

Ltac finished_case s :=
  let sc := fresh "sc" in
  let E := fresh "E" in
  destruct (finished_out_value s) as [sc E]; rewrite E;
  cbn [try_except state_of progress_of question_of].

(** *** Revealing *)

Lemma reveal_state (s : QuizState) :
  cards s <> [] -> finished s = false ->
  state_of (ui_reveal_answer format_ratio (Some s)) = Some (set_revealed true s).
Proof.
  intros Hc Hf. unfold ui_reveal_answer.
  rewrite (is_empty_false _ Hc), Hf. handlers. reflexivity.
Qed.

Lemma reveal_state_cases (s : QuizState) :
  state_of (ui_reveal_answer format_ratio (Some s)) = Some s
  \/ state_of (ui_reveal_answer format_ratio (Some s)) = Some (set_revealed true s).
Proof.
  unfold ui_reveal_answer. destruct (is_empty (cards s)); [left; reflexivity|].
  destruct (finished s).
  - left. finished_case s. reflexivity.
  - right. handlers. reflexivity.
Qed.

(** *** Marking *)

Lemma mark_state_unchanged (s : QuizState) (is_correct : bool) :
  marked s = true \/ finished s = true ->
  state_of (ui_mark_answer format_ratio (Some s) is_correct) = Some s.
Proof.
  intros H. unfold ui_mark_answer.
  destruct (is_empty (cards s)); [reflexivity|].
  destruct (finished s) eqn:Hf.
  - finished_case s. reflexivity.
  - destruct H as [H|H]; [|discriminate]. rewrite H. handlers. reflexivity.
Qed.

Lemma mark_state_counted (s : QuizState) (is_correct : bool) :
  finished s = false -> marked s = false ->
  (0 <= idx s < len (cards s))%Z ->
  exists card,
    nth_error (cards s) (Z.to_nat (idx s)) = Some card
    /\ state_of (ui_mark_answer format_ratio (Some s) is_correct)
       = Some (mkQuiz (cards s) (idx s) (revealed s) true
                      (if is_correct then correct s + 1 else correct s)
                      (if is_correct then incorrect s else incorrect s + 1)
                      (answered s + 1)
                      (history s ++ [history_entry card is_correct])
                      (finished s)).
Proof.
  intros Hf Hm Hi. unfold ui_mark_answer.
  assert (He : is_empty (cards s) = false).
  { destruct (cards s); [unfold len in Hi; simpl in Hi; lia | reflexivity]. }
  rewrite He, Hf, Hm.
  destruct (Z.ltb_spec (idx s) 0); [lia|].
  destruct (Z.geb_spec (idx s) (len (cards s))); [lia|]. cbn [orb].
  destruct (py_index_in_range (cards s) (idx s) Hi) as (card & E1 & E2).
  exists card. split; [exact E1|].
  destruct is_correct; cbn [set_answered set_correct set_incorrect set_marked
    cards idx revealed marked correct incorrect answered history finished];
    rewrite E2; handlers;
    unfold set_history, set_marked, set_correct, set_incorrect, set_answered;
    cbn [cards idx revealed marked correct incorrect answered history finished];
    rewrite ?Hf; reflexivity.
Qed.

Lemma mark_state_cases (s : QuizState) (is_correct : bool) :
  let s' := state_of (ui_mark_answer format_ratio (Some s) is_correct) in
  s' = Some s \/ s' = Some (set_finished true s)
  \/ exists card,
       s' = Some (mkQuiz (cards s) (idx s) (revealed s) true
                         (if is_correct then correct s + 1 else correct s)
                         (if is_correct then incorrect s else incorrect s + 1)
                         (answered s + 1)
                         (history s ++ [history_entry card is_correct])
                         (finished s)).
Proof.
  intros s'. subst s'.
  destruct (finished s) eqn:Hf;
    [left; apply mark_state_unchanged; now right|].
  destruct (marked s) eqn:Hm;
    [left; apply mark_state_unchanged; now left|].
  destruct (Z.ltb_spec (idx s) 0) as [Hlt|Hge].
  - unfold ui_mark_answer. destruct (is_empty (cards s)); [left; reflexivity|].
    rewrite Hf, Hm. destruct (Z.ltb_spec (idx s) 0); [|lia]. cbn [orb].
    right. left. finished_case (set_finished true s). reflexivity.
  - destruct (Z.geb_spec (idx s) (len (cards s))) as [Hout|Hin].
    + unfold ui_mark_answer. destruct (is_empty (cards s)); [left; reflexivity|].
      rewrite Hf, Hm. destruct (Z.geb_spec (idx s) (len (cards s))); [|lia].
      rewrite orb_true_r.
      right. left. finished_case (set_finished true s). reflexivity.
    + right. right.
      destruct (mark_state_counted s is_correct Hf Hm) as (card & _ & E); [lia|].
      exists card. rewrite Hf in E. exact E.
Qed.

(** *** The next question *)

Lemma next_state_finished (s : QuizState) :
  finished s = true ->
  state_of (ui_next_question format_ratio (Some s)) = Some s.
Proof.
  intros Hf. unfold ui_next_question.
  destruct (is_empty (cards s)); [reflexivity|]. rewrite Hf.
  finished_case s. reflexivity.
Qed.

Lemma next_out (s : QuizState) :
  cards s <> [] -> finished s = false ->
  let s' := mkQuiz (cards s) (idx s + 1) false false (correct s) (incorrect s)
                   (answered s) (history s)
                   (idx s + 1 >=? len (cards s))%Z in
  exists score feedback,
    ui_next_question format_ratio (Some s)
    = (Some s', _quiz_progress_text s',
       if (idx s + 1 >=? len (cards s))%Z then [] else shown (lit "question") s',
       score, feedback).
Proof.
  intros Hc Hf s'. subst s'. unfold ui_next_question.
  rewrite (is_empty_false _ Hc), Hf.
  unfold set_idx, set_revealed, set_marked, set_finished, finished_out.
  cbn [cards idx revealed marked correct incorrect answered history finished].
  destruct (idx s + 1 >=? len (cards s))%Z eqn:G; handlers;
    unfold set_finished;
    cbn [cards idx revealed marked correct incorrect answered history finished];
    rewrite ?Hf; eexists; eexists; reflexivity.
Qed.

Lemma next_state_cases (s : QuizState) :
  let s' := state_of (ui_next_question format_ratio (Some s)) in
  s' = Some s
  \/ s' = Some (mkQuiz (cards s) (idx s + 1) false false (correct s) (incorrect s)
                       (answered s) (history s)
                       (idx s + 1 >=? len (cards s))%Z).
Proof.
  intros s'. subst s'.
  destruct (finished s) eqn:Hf; [left; now apply next_state_finished|].
  destruct (cards s) as [|c cs] eqn:Hc.
  - left. unfold ui_next_question. rewrite Hc. reflexivity.
  - right. destruct (next_out s) as (sc & fb & E); [rewrite Hc; discriminate | exact Hf |].
    rewrite E, Hc. reflexivity.
Qed.

Lemma start_out (cards_state : list Dict) :
  cards_state <> [] ->
  exists score,
    ui_start_quiz format_ratio cards_state
    = inr (Some (_quiz_init_state cards_state),
           lit "Question 1 / " ++ str_of_int (len cards_state),
           question_text (hd [] cards_state), score, []).
Proof.
  intros Hc. unfold ui_start_quiz. rewrite (is_empty_false _ Hc). handlers.
  eexists. unfold _quiz_progress_text, shown, question_text.
  cbn [cards idx finished _quiz_init_state]. rewrite (is_empty_false _ Hc).
  destruct cards_state as [|c cs]; [congruence|].
  unfold len. cbn [length]. cbn [orb Z.ltb Z.compare].
  destruct (Z.geb_spec 0 (Z.of_nat (S (length cs)))); [lia|].
  reflexivity.
Qed.

Lemma start_state (cards_state : list Dict) :
  exists s, ui_start_quiz format_ratio cards_state = inr s
            /\ state_of s = Some (_quiz_init_state cards_state).
Proof.
  destruct cards_state as [|c cs] eqn:E.
  - eexists. split; reflexivity.
  - destruct (start_out (c :: cs)) as [sc H]; [discriminate|].
    eexists. split; [exact H | reflexivity].
Qed.

(** The state after [j] clicks on Next, while cards are left. *)
Lemma next_times_state (cards_state : list Dict) (j : nat) :
  j < length cards_state ->
  next_times format_ratio j (Some (_quiz_init_state cards_state))
  = Some (set_idx (Z.of_nat j) (_quiz_init_state cards_state)).
Proof.
  induction j as [|j IH]; intros Hj; [reflexivity|].
  cbn [next_times]. rewrite IH by lia.
  destruct (next_out (set_idx (Z.of_nat j) (_quiz_init_state cards_state)))
    as (sc & fb & E).
  - cbn. destruct cards_state; [simpl in Hj; lia | discriminate].
  - reflexivity.
  - unfold set_idx, _quiz_init_state in E |- *.
    cbn [cards idx revealed marked correct incorrect answered history finished]
      in E |- *.
    rewrite E. cbn [state_of].
    destruct (Z.geb_spec (Z.of_nat j + 1) (len cards_state)) as [G|G];
      [unfold len in G; lia|].
    replace (Z.of_nat (S j)) with (Z.of_nat j + 1)%Z by lia. reflexivity.
Qed.

End QuizProperties.

(** ** The quiz session, handler by handler *)

(** C10.  [_quiz_score_text] returns a summary for every quiz state: the
    division, which raises for a divisor of zero, is taken only when
    [answered] is not zero.  When nothing has been answered, as in a fresh
    state, the accuracy reported is 0.0. *)
Theorem quiz_score_text_total (format_ratio : Z -> Z -> str) (state : QuizState) :
  (exists text, _quiz_score_text format_ratio state = inr text)
  /\ ratio_percent (correct state) 0 = inl ZeroDivisionError
  /\ (answered state = 0%Z ->
      _quiz_score_text format_ratio state
      = inr (lit "Correct: **" ++ str_of_int (correct state) ++ lit "**" ++ [LF; LF]
             ++ lit "Incorrect: **" ++ str_of_int (incorrect state) ++ lit "**"
             ++ [LF; LF]
             ++ lit "Total answered: **0**" ++ [LF; LF]
             ++ lit "Accuracy: **0.0%**"))
  /\ (forall cards_state,
        _quiz_score_text format_ratio (_quiz_init_state cards_state)
        = inr (lit "Correct: **0**" ++ [LF; LF]
               ++ lit "Incorrect: **0**" ++ [LF; LF]
               ++ lit "Total answered: **0**" ++ [LF; LF]
               ++ lit "Accuracy: **0.0%**")).
Proof.
  split; [|split; [|split]].
  - rewrite score_text_value. eexists. reflexivity.
  - reflexivity.
  - intros H. rewrite score_text_value, H. reflexivity.
  - intros cards_state. reflexivity.
Qed.

Lemma quiz_score_text_total_witness :
  _quiz_score_text (fun _ _ => []) (mkQuiz two_cards 1 true false 0 0 0 [] false)
  = inr (lit "Correct: **0**" ++ [LF; LF]
         ++ lit "Incorrect: **0**" ++ [LF; LF]
         ++ lit "Total answered: **0**" ++ [LF; LF]
         ++ lit "Accuracy: **0.0%**").
Proof.
  apply (proj1 (proj2 (proj2 (quiz_score_text_total
           (fun _ _ => []) (mkQuiz two_cards 1 true false 0 0 0 [] false))))).
  reflexivity.
Defined.

(** C9.  On a session with cards that is not finished, [ui_reveal_answer]
    sets [revealed] and changes nothing else of the quiz state. *)
Theorem reveal_changes_only_revealed (format_ratio : Z -> Z -> str) (s : QuizState) :
  cards s <> [] -> finished s = false ->
  exists s',
    state_of (ui_reveal_answer format_ratio (Some s)) = Some s'
    /\ revealed s' = true
    /\ cards s' = cards s /\ idx s' = idx s
    /\ correct s' = correct s /\ incorrect s' = incorrect s
    /\ answered s' = answered s /\ marked s' = marked s
    /\ history s' = history s /\ finished s' = finished s.
Proof.
  intros Hc Hf. exists (set_revealed true s).
  split; [now apply reveal_state|]. repeat split; reflexivity.
Qed.

Lemma reveal_changes_only_revealed_witness :
  exists s',
    state_of (ui_reveal_answer (fun _ _ => []) (Some (_quiz_init_state two_cards)))
    = Some s'
    /\ revealed s' = true
    /\ cards s' = two_cards /\ idx s' = 0%Z
    /\ correct s' = 0%Z /\ incorrect s' = 0%Z
    /\ answered s' = 0%Z /\ marked s' = false
    /\ history s' = [] /\ finished s' = false.
Proof.
  apply (reveal_changes_only_revealed (fun _ _ => []) (_quiz_init_state two_cards)).
  - discriminate.
  - reflexivity.
Defined.

(** C7.  On a session that is not finished, with the cursor on a card that
    is not yet marked, [ui_mark_answer] adds one to [answered], one to
    [correct] or to [incorrect] according to the answer, sets [marked] and
    appends one entry to the history.  When the question is already marked
    or the session is finished, the state is left as it is. *)
Theorem mark_counts_each_question_once
    (format_ratio : Z -> Z -> str) (s : QuizState) (is_correct : bool) :
  (finished s = false -> marked s = false ->
   (0 <= idx s < len (cards s))%Z ->
   exists s' card,
     state_of (ui_mark_answer format_ratio (Some s) is_correct) = Some s'
     /\ nth_error (cards s) (Z.to_nat (idx s)) = Some card
     /\ answered s' = (answered s + 1)%Z
     /\ correct s' = (if is_correct then correct s + 1 else correct s)%Z
     /\ incorrect s' = (if is_correct then incorrect s else incorrect s + 1)%Z
     /\ marked s' = true
     /\ history s' = history s ++ [history_entry card is_correct]
     /\ cards s' = cards s /\ idx s' = idx s
     /\ revealed s' = revealed s /\ finished s' = false)
  /\ (marked s = true \/ finished s = true ->
      state_of (ui_mark_answer format_ratio (Some s) is_correct) = Some s).
Proof.
  split.
  - intros Hf Hm Hi.
    destruct (mark_state_counted format_ratio s is_correct Hf Hm Hi)
      as (card & E1 & E2).
    eexists. exists card. split; [exact E2|].
    cbn [cards idx revealed marked correct incorrect answered history finished].
    repeat split; try reflexivity; assumption.
  - apply mark_state_unchanged.
Qed.

Lemma mark_counts_each_question_once_witness :
  (exists s' card,
     state_of (ui_mark_answer (fun _ _ => []) (Some (_quiz_init_state two_cards)) true)
     = Some s'
     /\ nth_error two_cards 0 = Some card
     /\ answered s' = 1%Z /\ correct s' = 1%Z /\ incorrect s' = 0%Z
     /\ marked s' = true
     /\ history s' = [history_entry card true]
     /\ cards s' = two_cards /\ idx s' = 0%Z
     /\ revealed s' = false /\ finished s' = false)
  /\ state_of (ui_mark_answer (fun _ _ => [])
                 (Some (mkQuiz two_cards 0 false true 1 0 1
                               [history_entry card_a true] false)) false)
     = Some (mkQuiz two_cards 0 false true 1 0 1 [history_entry card_a true] false).
Proof.
  split.
  - apply (proj1 (mark_counts_each_question_once
                    (fun _ _ => []) (_quiz_init_state two_cards) true)).
    + reflexivity.
    + reflexivity.
    + vm_compute. split; [discriminate | reflexivity].
  - apply (proj2 (mark_counts_each_question_once
                    (fun _ _ => [])
                    (mkQuiz two_cards 0 false true 1 0 1
                            [history_entry card_a true] false) false)).
    left. reflexivity.
Defined.

Lemma click_consistent (format_ratio : Z -> Z -> str)
    (quiz_state : option QuizState) (a : Action) :
  stored_consistent quiz_state ->
  stored_consistent (click format_ratio quiz_state a).
Proof.
  intros H. destruct a as [cards_state| |is_correct|]; cbn [click].
  - destruct (start_state format_ratio cards_state) as (o & E & Es).
    rewrite E, Es. cbn. unfold counters_consistent, len. cbn. split; reflexivity.
  - destruct quiz_state as [s|]; [|exact H].
    destruct (reveal_state_cases format_ratio s) as [E|E]; rewrite E; exact H.
  - destruct quiz_state as [s|]; [|exact H].
    destruct (mark_state_cases format_ratio s is_correct) as [E|[E|(card & E)]];
      rewrite E; try exact H.
    cbn in H |- *. unfold counters_consistent, len in *.
    cbn [correct incorrect answered history] in *.
    rewrite length_app. cbn [length]. destruct H as [H1 H2].
    destruct is_correct; split; lia.
  - destruct quiz_state as [s|]; [|exact H].
    destruct (next_state_cases format_ratio s) as [E|E]; rewrite E; exact H.
Qed.

Lemma reachable_stored_consistent (format_ratio : Z -> Z -> str)
    (quiz_state : option QuizState) :
  reachable format_ratio quiz_state -> stored_consistent quiz_state.
Proof.
  induction 1 as [cards_state | quiz_state a _ IH].
  - cbn. unfold counters_consistent, len. cbn. split; reflexivity.
  - now apply click_consistent.
Qed.

(** C8.  In every quiz state reached from [_quiz_init_state] by any
    sequence of the four handlers, [answered] is [correct + incorrect] and
    the history has [answered] entries. *)
Theorem reachable_counters_consistent (format_ratio : Z -> Z -> str)
    (s : QuizState) :
  reachable format_ratio (Some s) ->
  (answered s = correct s + incorrect s)%Z /\ len (history s) = answered s.
Proof.
  intros H. exact (reachable_stored_consistent format_ratio (Some s) H).
Qed.

Lemma reachable_counters_consistent_witness :
  let s := mkQuiz two_cards 1 false true 1 1 2
                  [history_entry card_a true; history_entry card_b false] false in
  (answered s = correct s + incorrect s)%Z /\ len (history s) = answered s.
Proof.
  apply (reachable_counters_consistent (fun _ _ => [])).
  change (reachable (fun _ _ => [])
            (click (fun _ _ => [])
               (click (fun _ _ => [])
                  (click (fun _ _ => []) (Some (_quiz_init_state two_cards))
                         (Mark true))
                  Next)
               (Mark false))).
  do 3 apply reach_click. apply reach_init.
Defined.

Lemma progress_text_at (cards_state : list Dict) (i : Z) (s : QuizState) :
  cards s = cards_state -> cards_state <> [] -> idx s = i -> finished s = false ->
  _quiz_progress_text s
  = lit "Question " ++ str_of_int (i + 1) ++ lit " / " ++ str_of_int (len cards_state).
Proof.
  intros Hc Hne Hi Hf. unfold _quiz_progress_text.
  rewrite Hc, Hi, Hf, (is_empty_false _ Hne). reflexivity.
Qed.

Lemma shown_at (key : str) (s : QuizState) (j : nat) (card : Dict) :
  idx s = Z.of_nat j -> nth_error (cards s) j = Some card ->
  shown key s = dict_get card key [].
Proof.
  intros Hi Hn. unfold shown.
  assert (Hlt : j < length (cards s)).
  { apply nth_error_Some. congruence. }
  assert (He : is_empty (cards s) = false).
  { destruct (cards s); [simpl in Hlt; lia | reflexivity]. }
  rewrite He, Hi. destruct (Z.ltb_spec (Z.of_nat j) 0); [lia|].
  destruct (Z.geb_spec (Z.of_nat j) (len (cards s))); [unfold len in *; lia|].
  cbn [orb]. rewrite Nat2Z.id, Hn. reflexivity.
Qed.

(** C6.  The quiz shows one question at a time, in the order of the cards.
    Started over [k >= 1] cards it stands at index 0 and shows
    "Question 1 / k" with the question of the first card.  On a session
    that is not finished [ui_next_question] adds one to the index and
    resets [revealed] and [marked]; the session is finished when the index
    reaches [k].  So the [j]-th click on Next shows the question of card
    [j], the [k]-th click finishes the session, and a finished session
    stays as it is. *)
Theorem quiz_one_question_at_a_time
    (format_ratio : Z -> Z -> str) (cards_state : list Dict) :
  cards_state <> [] ->
  let k := length cards_state in
  let s0 := _quiz_init_state cards_state in
  (exists score,
     ui_start_quiz format_ratio cards_state
     = inr (Some s0, lit "Question 1 / " ++ str_of_int (len cards_state),
            question_text (hd [] cards_state), score, []))
  /\ idx s0 = 0%Z
  /\ (forall s, cards s <> [] -> finished s = false ->
        exists s',
          state_of (ui_next_question format_ratio (Some s)) = Some s'
          /\ idx s' = (idx s + 1)%Z
          /\ revealed s' = false /\ marked s' = false
          /\ finished s' = (idx s + 1 >=? len (cards s))%Z
          /\ cards s' = cards s
          /\ correct s' = correct s /\ incorrect s' = incorrect s
          /\ answered s' = answered s /\ history s' = history s)
  /\ (forall j card, nth_error cards_state (S j) = Some card ->
        let out := ui_next_question format_ratio
                     (next_times format_ratio j (Some s0)) in
        exists s',
          state_of out = Some s'
          /\ idx s' = Z.of_nat (S j) /\ finished s' = false
          /\ question_of out = question_text card
          /\ progress_of out
             = lit "Question " ++ str_of_int (Z.of_nat (S j) + 1) ++ lit " / "
               ++ str_of_int (len cards_state))
  /\ (exists s',
        next_times format_ratio k (Some s0) = Some s'
        /\ idx s' = Z.of_nat k /\ finished s' = true
        /\ question_of (ui_next_question format_ratio
                          (next_times format_ratio (k - 1) (Some s0))) = [])
  /\ (forall s, finished s = true ->
        state_of (ui_next_question format_ratio (Some s)) = Some s).
Proof.
  intros Hne k s0. subst s0. split; [|split; [|split; [|split; [|split]]]].
  - now apply start_out.
  - reflexivity.
  - intros s Hc Hf. destruct (next_out format_ratio s Hc Hf) as (sc & fb & E).
    eexists. rewrite E. cbn [state_of]. split; [reflexivity|].
    repeat split; reflexivity.
  - intros j card Hn out. subst out.
    assert (Hj : S j < length cards_state).
    { apply nth_error_Some. congruence. }
    rewrite next_times_state by lia.
    destruct (next_out format_ratio (set_idx (Z.of_nat j) (_quiz_init_state cards_state))) as (sc & fb & E).
    + exact Hne.
    + reflexivity.
    + unfold set_idx, _quiz_init_state in E |- *.
      cbn [cards idx revealed marked correct incorrect answered history finished]
        in E |- *.
      rewrite E. cbn [state_of question_of progress_of].
      destruct (Z.geb_spec (Z.of_nat j + 1) (len cards_state)) as [G|G];
        [unfold len in G; lia|].
      eexists. split; [reflexivity|].
      cbn [cards idx revealed marked correct incorrect answered history finished].
      split; [lia|]. split; [reflexivity|]. split.
      * apply shown_at with (j := S j); [cbn; lia | exact Hn].
      * rewrite (progress_text_at cards_state (Z.of_nat j + 1)); try reflexivity;
          [|exact Hne].
        replace (Z.of_nat (S j) + 1)%Z with (Z.of_nat j + 1 + 1)%Z by lia.
        reflexivity.
  - assert (Hk : exists m, k = S m).
    { unfold k. destruct cards_state; [congruence|]. eexists. reflexivity. }
    destruct Hk as [m Hk]. rewrite Hk.
    replace (S m - 1) with m by lia. cbn [next_times].
    rewrite next_times_state by (fold k; lia).
    destruct (next_out format_ratio (set_idx (Z.of_nat m) (_quiz_init_state cards_state))) as (sc & fb & E).
    + exact Hne.
    + reflexivity.
    + unfold set_idx, _quiz_init_state in E |- *.
      cbn [cards idx revealed marked correct incorrect answered history finished]
        in E |- *.
      rewrite E. cbn [state_of question_of].
      destruct (Z.geb_spec (Z.of_nat m + 1) (len cards_state)) as [G|G];
        [|unfold len in G; fold k in G; lia].
      eexists. split; [reflexivity|].
      cbn [cards idx revealed marked correct incorrect answered history finished].
      repeat split; try reflexivity. lia.
  - intros s Hf. now apply next_state_finished.
Qed.

Lemma quiz_one_question_at_a_time_witness :
  (exists score,
     ui_start_quiz (fun _ _ => []) two_cards
     = inr (Some (_quiz_init_state two_cards), lit "Question 1 / 2",
            lit "Q1", score, []))
  /\ question_of (ui_next_question (fun _ _ => []) (Some (_quiz_init_state two_cards)))
     = lit "Q2"
  /\ exists s',
       next_times (fun _ _ => []) 2 (Some (_quiz_init_state two_cards)) = Some s'
       /\ idx s' = 2%Z /\ finished s' = true.
Proof.
  assert (Hne : two_cards <> []) by discriminate.
  pose proof (quiz_one_question_at_a_time (fun _ _ => []) two_cards Hne) as H.
  cbv zeta in H. destruct H as (H1 & _ & _ & H4 & H5 & _).
  split; [exact H1|]. split.
  - destruct (H4 0 card_b eq_refl) as (s' & _ & _ & _ & Hq & _). exact Hq.
  - destruct H5 as (s' & E & Hi & Hf & _). exists s'. auto.
Defined.

(** * Further properties *)

(** ** What the normalization keeps *)

Lemma starts_with_firstn (old s : str) :
  starts_with old s = true -> firstn (length old) s = old.
Proof.
  revert s. induction old as [|a old IH]; intros s H; [reflexivity|].
  destruct s as [|b s]; [discriminate|]. simpl in H.
  apply andb_true_iff in H. destruct H as [H1 H2].
  apply N.eqb_eq in H1. subst b. simpl. f_equal. now apply IH.
Qed.

Lemma filter_none (f : char -> bool) (l : str) :
  Forall (fun c => f c = false) l -> filter f l = [].
Proof.
  induction 1 as [|a l Ha _ IH]; simpl; [reflexivity|]. now rewrite Ha.
Qed.

Lemma filter_nil_all (f : char -> bool) (l : str) :
  filter f l = [] -> Forall (fun c => f c = false) l.
Proof.
  induction l as [|a l IH]; simpl; [constructor|].
  destruct (f a) eqn:Ha; [discriminate|]. intros H. constructor; auto.
Qed.

Section Kept.

(** A class of characters [keep] that the rewriting does not touch. *)
Variable keep : char -> bool.

Section Replace.

Variable a : char.
Variable old' new : str.
Hypothesis keep_old : Forall (fun c => keep c = false) (a :: old').
Hypothesis keep_new : Forall (fun c => keep c = false) new.

Lemma replace_from_keeps (s : str) (skip : nat) :
  Forall (fun c => keep c = false) (firstn skip s) ->
  filter keep (replace_from (a :: old') new skip s) = filter keep s.
Proof.
  revert skip. induction s as [|c s IH]; intros skip Hskip; [reflexivity|].
  cbn [replace_from]. destruct skip as [|k].
  - destruct (starts_with (a :: old') (c :: s)) eqn:E.
    + apply starts_with_firstn in E. cbn [length firstn] in E.
      injection E as -> E.
      rewrite filter_app, (filter_none keep new keep_new). cbn [app].
      replace (length (a :: old') - 1) with (length old') by (simpl; lia).
      inversion keep_old as [|? ? Ha Hold]; subst.
      rewrite IH by (rewrite E; exact Hold).
      cbn [filter]. now rewrite Ha.
    + cbn [filter]. rewrite (IH 0) by constructor. reflexivity.
  - cbn [firstn] in Hskip. inversion Hskip as [|? ? Hc Hrest]; subst.
    rewrite IH by exact Hrest. cbn [filter]. now rewrite Hc.
Qed.

Lemma replace_keeps (s : str) :
  filter keep (replace (a :: old') new s) = filter keep s.
Proof. apply replace_from_keeps. constructor. Qed.

End Replace.

Lemma re_sub_scan_keeps (cls : char -> bool) (least : nat) (repl : str) :
  (forall c, cls c = true -> keep c = false) ->
  Forall (fun c => keep c = false) repl ->
  forall s run,
    Forall (fun c => keep c = false) run ->
    filter keep (re_sub_scan cls least repl run s) = filter keep s.
Proof.
  intros Hcls Hrepl. induction s as [|c s IH]; intros run Hrun;
    cbn [re_sub_scan].
  - apply filter_none. now apply flush_no_q.
  - destruct (cls c) eqn:Hc.
    + rewrite IH.
      * cbn [filter]. now rewrite (Hcls c Hc).
      * apply Forall_app. split; [exact Hrun|].
        constructor; [now apply Hcls | constructor].
    + rewrite filter_app, (filter_none keep _ (flush_no_q least repl keep Hrepl run Hrun)).
      cbn [app filter]. now rewrite (IH [] (Forall_nil _)).
Qed.

Hypothesis keep_visible : forall c, isspace c = true -> keep c = false.

Lemma lstrip_keeps (s : str) : filter keep (lstrip s) = filter keep s.
Proof.
  induction s as [|c s IH]; [reflexivity|]. cbn [lstrip].
  destruct (isspace c) eqn:Hc; [|reflexivity].
  cbn [filter]. now rewrite (keep_visible c Hc).
Qed.

Lemma strip_keeps (s : str) : filter keep (strip s) = filter keep s.
Proof.
  unfold strip, rstrip.
  rewrite filter_rev, lstrip_keeps, filter_rev, rev_involutive.
  apply lstrip_keeps.
Qed.

End Kept.

Lemma visible_not_space (c : char) : isspace c = true -> visible c = false.
Proof. unfold visible. now intros ->. Qed.

Lemma normalize_keeps_visible (raw : str) :
  filter visible (normalize raw) = filter visible raw.
Proof.
  unfold normalize, re_sub_run.
  rewrite strip_keeps by exact visible_not_space.
  rewrite re_sub_scan_keeps; [| |repeat constructor|constructor].
  2:{ intros c Hc. apply N.eqb_eq in Hc. now subst c. }
  rewrite re_sub_scan_keeps; [| |repeat constructor|constructor].
  2:{ intros c Hc. unfold is_blank in Hc. apply orb_true_iff in Hc.
      destruct Hc as [Hc|Hc]; apply N.eqb_eq in Hc; now subst c. }
  rewrite replace_keeps by (repeat constructor).
  apply replace_keeps; repeat constructor.
Qed.

Lemma normalize_nil_iff (raw : str) :
  normalize raw = [] <-> Forall (fun c => isspace c = true) raw.
Proof.
  split.
  - intros E. pose proof (normalize_keeps_visible raw) as H.
    rewrite E in H. cbn in H. symmetry in H. apply filter_nil_all in H.
    eapply Forall_impl; [|exact H]. intros c Hc. unfold visible in Hc.
    now destruct (isspace c).
  - intros Hall.
    assert (H : filter visible (normalize raw) = []).
    { rewrite normalize_keeps_visible. apply filter_none.
      eapply Forall_impl; [|exact Hall]. intros c Hc. now apply visible_not_space. }
    destruct (normalize raw) as [|c t] eqn:E; [reflexivity|].
    apply filter_nil_all in H. inversion H as [|? ? Hc _]; subst.
    destruct (normalize_normalized raw) as (_ & _ & _ & _ & Hhead & _).
    rewrite E in Hhead. specialize (Hhead c t eq_refl).
    unfold visible in Hc. rewrite Hhead in Hc. discriminate.
Qed.

(** X1.  The normalization of [_preprocess_study_text] changes whitespace
    only: the characters of the text that are not whitespace are the same,
    in the same order, before and after. *)
Theorem preprocess_keeps_the_words (raw clean : str) :
  _preprocess_study_text (Some raw) = (Some clean, None) ->
  filter visible clean = filter visible raw.
Proof.
  intros H. destruct (preprocess_accepts raw clean H) as [-> _].
  apply normalize_keeps_visible.
Qed.

Lemma preprocess_keeps_the_words_witness :
  filter visible tidy_text = filter visible messy_text.
Proof.
  apply (preprocess_keeps_the_words messy_text tidy_text).
  vm_compute. reflexivity.
Defined.

(** X2.  A study text is reported as empty exactly when every one of its
    characters is whitespace. *)
Theorem preprocess_empty_iff_blank (raw : str) :
  _preprocess_study_text (Some raw) = (None, Some msg_empty)
  <-> Forall (fun c => isspace c = true) raw.
Proof.
  rewrite <- normalize_nil_iff, preprocess_cases.
  destruct (normalize raw) as [|c t].
  - split; reflexivity.
  - split; [|discriminate].
    destruct (length (c :: t) <? 120); [|discriminate].
    intros E. exfalso. injection E as E. vm_compute in E. discriminate E.
Qed.

Lemma preprocess_empty_iff_blank_witness :
  _preprocess_study_text (Some [SP; TAB; LF; CR; 160%N; SP]) = (None, Some msg_empty).
Proof.
  apply (proj2 (preprocess_empty_iff_blank [SP; TAB; LF; CR; 160%N; SP])).
  repeat constructor.
Defined.

(** ** The length of the cleaned text *)

Lemma replace_from_length (a : char) (old' new s : str) (skip : nat) :
  length new <= S (length old') ->
  length (replace_from (a :: old') new skip s) <= length s - skip.
Proof.
  intros Hnew. revert skip. induction s as [|c s IH]; intros skip;
    [simpl; lia|].
  cbn [replace_from]. destruct skip as [|k].
  - destruct (starts_with (a :: old') (c :: s)) eqn:E.
    + apply starts_with_firstn in E.
      apply (f_equal (@length char)) in E. rewrite length_firstn in E.
      rewrite length_app. specialize (IH (length (a :: old') - 1)).
      simpl length in *. lia.
    + specialize (IH 0). simpl length. lia.
  - specialize (IH k). simpl length. lia.
Qed.

Lemma replace_length (a : char) (old' new s : str) :
  length new <= S (length old') ->
  length (replace (a :: old') new s) <= length s.
Proof.
  intros H. pose proof (replace_from_length a old' new s 0 H). unfold replace. lia.
Qed.

Lemma re_sub_scan_length (cls : char -> bool) (least : nat) (repl : str) :
  length repl <= least ->
  forall s run,
    length (re_sub_scan cls least repl run s) <= length run + length s.
Proof.
  intros Hrepl. induction s as [|c s IH]; intros run; cbn [re_sub_scan].
  - unfold flush. destruct run as [|x run]; [simpl; lia|].
    destruct (Nat.leb_spec least (length (x :: run))); simpl length in *; lia.
  - destruct (cls c).
    + specialize (IH (run ++ [c])). rewrite length_app in IH.
      simpl length in *. lia.
    + rewrite length_app. specialize (IH []).
      assert (length (flush least repl run) <= length run).
      { unfold flush. destruct run as [|x run]; [simpl; lia|].
        destruct (Nat.leb_spec least (length (x :: run))); simpl length in *; lia. }
      simpl length in *. lia.
Qed.

Lemma strip_length (s : str) : length (strip s) <= length s.
Proof.
  destruct (strip_infix s) as (l1 & l2 & E). rewrite E at 2.
  rewrite !length_app. lia.
Qed.

Lemma normalize_length (raw : str) : length (normalize raw) <= length raw.
Proof.
  unfold normalize, re_sub_run.
  pose proof (replace_length CR [LF] [LF] raw) as H1.
  pose proof (replace_length CR [] [LF] (replace [CR; LF] [LF] raw)) as H2.
  pose proof (re_sub_scan_length is_blank 1 [SP] (le_n 1)
                (replace [CR] [LF] (replace [CR; LF] [LF] raw)) []) as H3.
  pose proof (re_sub_scan_length is_newline 3 [LF; LF] (le_S _ _ (le_n 2))
                (re_sub_scan is_blank 1 [SP] []
                   (replace [CR] [LF] (replace [CR; LF] [LF] raw))) []) as H4.
  pose proof (strip_length
                (re_sub_scan is_newline 3 [LF; LF] []
                   (re_sub_scan is_blank 1 [SP] []
                      (replace [CR] [LF] (replace [CR; LF] [LF] raw))))) as H5.
  simpl length in *. lia.
Qed.

(** X3.  The cleaned text is never longer than the text that was pasted:
    an accepted text has at least 120 characters before the cleaning too,
    and a pasted text of fewer than 120 characters is always turned
    down. *)
Theorem preprocess_never_grows (raw : str) :
  (forall clean, _preprocess_study_text (Some raw) = (Some clean, None) ->
                 120 <= length clean <= length raw)
  /\ (length raw < 120 ->
      exists e, e <> [] /\ _preprocess_study_text (Some raw) = (None, Some e)).
Proof.
  pose proof (normalize_length raw) as Hlen. split.
  - intros clean H. destruct (preprocess_accepts raw clean H) as [-> H120]. lia.
  - intros Hshort.
    destruct (preprocess_result (Some raw)) as [(e & Hne & E)|(raw' & Er & H120 & _)].
    + exists e. split; assumption.
    + injection Er as <-. lia.
Qed.

Lemma preprocess_never_grows_witness :
  120 <= length tidy_text <= length messy_text
  /\ exists e, e <> []
       /\ _preprocess_study_text (Some (lit " short note ")) = (None, Some e).
Proof.
  split.
  - apply (proj1 (preprocess_never_grows messy_text) tidy_text).
    vm_compute. reflexivity.
  - apply (proj2 (preprocess_never_grows (lit " short note "))).
    vm_compute. lia.
Defined.

(** ** The cleaned text is a fixed point *)

Lemma replace_absent (a : char) (old' new s : str) :
  ~ In a s -> replace (a :: old') new s = s.
Proof.
  unfold replace. induction s as [|c s IH]; intros H; [reflexivity|].
  cbn [replace_from starts_with].
  destruct (N.eqb_spec a c) as [E|E].
  - exfalso. apply H. now left.
  - cbn [andb]. f_equal. apply IH. intros Hin. apply H. now right.
Qed.

Lemma re_sub_scan_fixed (cls : char -> bool) (least : nat) (repl : str)
    (s run : str) :
  run_of cls run ->
  (forall l1 r l2, run ++ s = l1 ++ r ++ l2 -> run_of cls r ->
                   flush least repl r = r) ->
  re_sub_scan cls least repl run s = run ++ s.
Proof.
  revert run. induction s as [|c s IH]; intros run Hrun H; cbn [re_sub_scan].
  - rewrite app_nil_r. apply (H [] run []); [|exact Hrun].
    now rewrite app_nil_r.
  - destruct (cls c) eqn:Hc.
    + rewrite IH.
      * now rewrite <- app_assoc.
      * apply Forall_app. split; [exact Hrun | repeat constructor; exact Hc].
      * intros l1 r l2 E. apply (H l1 r l2). rewrite <- E. now rewrite <- app_assoc.
    + rewrite (H [] run (c :: s) eq_refl Hrun). f_equal. f_equal.
      apply (IH []); [constructor|].
      intros l1 r l2 E. apply (H (run ++ c :: l1) r l2).
      rewrite <- app_assoc. cbn [app]. now rewrite <- E.
Qed.

Lemma lstrip_fixed (s : str) :
  (forall c r, s = c :: r -> isspace c = false) -> lstrip s = s.
Proof.
  intros H. destruct s as [|c s]; [reflexivity|].
  cbn [lstrip]. now rewrite (H c s eq_refl).
Qed.

Lemma strip_fixed (s : str) :
  (forall c r, s = c :: r -> isspace c = false) ->
  (forall c r, s = r ++ [c] -> isspace c = false) ->
  strip s = s.
Proof.
  intros Hhead Hlast. unfold strip, rstrip.
  rewrite (lstrip_fixed s Hhead), lstrip_fixed; [apply rev_involutive|].
  intros c r E. apply (Hlast c (rev r)).
  rewrite <- (rev_involutive s), E. reflexivity.
Qed.

Lemma has_run_infix (p : char -> bool) (k : nat) (l1 m l2 : str) :
  has_run p k m -> has_run p k (l1 ++ m ++ l2).
Proof.
  intros (a & r & b & E & Hr & Hk). exists (l1 ++ a), r, (b ++ l2).
  split; [|split; assumption]. rewrite E. now rewrite <- !app_assoc.
Qed.

Lemma normalized_fixed (t : str) : normalized t -> normalize t = t.
Proof.
  intros (Hcr & Htab & Hblank & Hnl & Hhead & Hlast).
  unfold normalize, re_sub_run.
  rewrite (replace_absent CR [LF] [LF] t Hcr), (replace_absent CR [] [LF] t Hcr).
  rewrite (re_sub_scan_fixed is_blank 1 [SP] t []); [|constructor|].
  - cbn [app].
    rewrite (re_sub_scan_fixed is_newline 3 [LF; LF] t []); [|constructor|].
    + cbn [app]. now apply strip_fixed.
    + cbn [app]. intros l1 r l2 E Hr. unfold flush.
      destruct r as [|x r]; [reflexivity|].
      destruct (Nat.leb_spec 3 (length (x :: r))) as [H3|H3]; [|reflexivity].
      exfalso. apply Hnl. exists l1, (x :: r), l2. auto.
  - cbn [app]. intros l1 r l2 E Hr. unfold flush.
    destruct r as [|x r]; [reflexivity|].
    assert (Hx : x = SP).
    { inversion Hr as [|? ? Hbx _]; subst. unfold is_blank in Hbx.
      apply orb_true_iff in Hbx. destruct Hbx as [Hb|Hb]; apply N.eqb_eq in Hb.
      - exfalso. apply Htab. subst x. rewrite in_app_iff. right. now left.
      - exact Hb. }
    destruct r as [|y r]; [subst x; reflexivity|].
    exfalso. apply Hblank. exists l1, (x :: y :: r), l2.
    split; [exact E|]. split; [exact Hr | simpl; lia].
Qed.

(** X4.  Cleaning is idempotent: a text that [_preprocess_study_text]
    accepts and returns cleaned is accepted again and returned unchanged
    when it is passed in once more. *)
Theorem preprocess_idempotent (raw clean : str) :
  _preprocess_study_text (Some raw) = (Some clean, None) ->
  _preprocess_study_text (Some clean) = (Some clean, None).
Proof.
  intros H. destruct (preprocess_accepts raw clean H) as [E H120].
  assert (Hfix : normalize clean = clean).
  { rewrite E. apply normalized_fixed, normalize_normalized. }
  rewrite preprocess_cases, Hfix. destruct clean as [|c t]; [simpl in H120; lia|].
  destruct (Nat.ltb_spec (length (c :: t)) 120); [lia | reflexivity].
Qed.

Lemma preprocess_idempotent_witness :
  _preprocess_study_text (Some tidy_text) = (Some tidy_text, None).
Proof.
  apply (preprocess_idempotent messy_text tidy_text).
  vm_compute. reflexivity.
Defined.

(** ** From the generation to the quiz *)

Lemma strip_nil_iff (e : str) :
  strip e = [] <-> Forall (fun c => isspace c = true) e.
Proof.
  pose proof (strip_keeps visible visible_not_space e) as Hk. split.
  - intros E. rewrite E in Hk. cbn in Hk. symmetry in Hk.
    apply filter_nil_all in Hk. eapply Forall_impl; [|exact Hk].
    intros c Hc. unfold visible in Hc. now destruct (isspace c).
  - intros Hall. destruct (strip e) as [|c t] eqn:E; [reflexivity|].
    pose proof (strip_head e c t E) as Hc.
    assert (Hv : filter visible e = []).
    { apply filter_none. eapply Forall_impl; [|exact Hall].
      intros x Hx. now apply visible_not_space. }
    rewrite Hv in Hk. cbn [filter] in Hk. unfold visible at 1 in Hk.
    rewrite Hc in Hk. discriminate.
Qed.

(** X5.  When the generator raises on an accepted text, the message shown
    is never blank and carries no whitespace around it: it is the message
    of the exception, trimmed, and "Unknown error" when that message is
    empty or made of whitespace only. *)
Theorem exception_status_never_blank
    (cards_to_table : list Flashcard -> list (list str))
    (generate_flashcards : GenArgs -> GenOutcome)
    (raw clean : str) (n_cards : Z) (style difficulty : str) (use_llm : bool)
    (e : exn) :
  _preprocess_study_text (Some raw) = (Some clean, None) ->
  generate_flashcards (mkGenArgs (Some clean) n_cards style difficulty use_llm)
  = Raised e ->
  exists m,
    ui_generate cards_to_table generate_flashcards (Some raw) n_cards style
                difficulty use_llm
    = ([], error_prefix ++ m, m, [])
    /\ m <> []
    /\ (forall c r, m = c :: r -> isspace c = false)
    /\ (forall c r, m = r ++ [c] -> isspace c = false)
    /\ (Forall (fun c => isspace c = true) e -> m = lit "Unknown error")
    /\ (~ Forall (fun c => isspace c = true) e ->
        m = strip e /\ filter visible m = filter visible e).
Proof.
  intros Hpre Hgen. exists (exception_message e).
  split.
  { unfold ui_generate, ui_generate_prog. rewrite Hpre. cbn [run].
    rewrite Hgen. reflexivity. }
  split; [apply exception_message_nonempty|].
  unfold exception_message. destruct (strip e) as [|c t] eqn:E.
  - split; [|split; [|split]].
    + intros c r Hm. vm_compute in Hm. injection Hm as <- _. reflexivity.
    + intros c r Hm.
      change (lit "Unknown error") with (lit "Unknown erro" ++ [114%N]) in Hm.
      apply app_inj_tail in Hm. destruct Hm as [_ <-]. reflexivity.
    + reflexivity.
    + intros Hn. exfalso. apply Hn. now apply strip_nil_iff.
  - split; [|split; [|split]].
    + intros c' r Hm. exact (strip_head e c' r (eq_trans E Hm)).
    + intros c' r Hm. exact (strip_last e c' r (eq_trans E Hm)).
    + intros Hall. apply strip_nil_iff in Hall. congruence.
    + intros _. split; [reflexivity|]. rewrite <- E.
      apply strip_keeps. exact visible_not_space.
Qed.

Lemma exception_status_never_blank_witness :
  exists m,
    ui_generate (fun _ => []) (fun _ => Raised (lit "  "))
                (Some long_word) 5 (lit "Q/A") (lit "easy") true
    = ([], error_prefix ++ m, m, [])
    /\ m = lit "Unknown error".
Proof.
  destruct (exception_status_never_blank
              (fun _ => []) (fun _ => Raised (lit "  "))
              long_word long_word 5 (lit "Q/A") (lit "easy") true (lit "  "))
    as (m & H1 & _ & _ & _ & H5 & _).
  - vm_compute. reflexivity.
  - reflexivity.
  - exists m. split; [exact H1|]. apply H5. repeat constructor.
Defined.

(** What [asdict] writes, [dict.get] reads back. *)
Lemma asdict_get (c : Flashcard) :
  dict_get (asdict c) (lit "type") [] = fc_type c
  /\ dict_get (asdict c) (lit "difficulty") [] = fc_difficulty c
  /\ dict_get (asdict c) (lit "question") [] = fc_question c
  /\ dict_get (asdict c) (lit "answer") [] = fc_answer c.
Proof. repeat split. Qed.

(** X6.  The cards that the generator returns are the cards of the quiz:
    started over the cards state of [ui_generate], the quiz shows
    "Question 1 / n" for the [n] cards returned, with the question of the
    first of them. *)
Theorem generated_cards_feed_the_quiz
    (cards_to_table : list Flashcard -> list (list str))
    (generate_flashcards : GenArgs -> GenOutcome)
    (format_ratio : Z -> Z -> str)
    (raw clean : str) (n_cards : Z) (style difficulty : str) (use_llm : bool)
    (first : Flashcard) (others : list Flashcard) (mode rawout : str) :
  _preprocess_study_text (Some raw) = (Some clean, None) ->
  generate_flashcards (mkGenArgs (Some clean) n_cards style difficulty use_llm)
  = Returned (first :: others) mode rawout ->
  let cards_state :=
    cards_state_of (ui_generate cards_to_table generate_flashcards (Some raw)
                                n_cards style difficulty use_llm) in
  cards_state = map asdict (first :: others)
  /\ exists score,
       ui_start_quiz format_ratio cards_state
       = inr (Some (_quiz_init_state cards_state),
              lit "Question 1 / " ++ str_of_int (len (first :: others)),
              fc_question first, score, []).
Proof.
  intros Hpre Hgen cards_state.
  assert (E : cards_state = map asdict (first :: others)).
  { subst cards_state. unfold ui_generate, ui_generate_prog. rewrite Hpre.
    cbn [run]. rewrite Hgen. reflexivity. }
  split; [exact E|]. rewrite E.
  destruct (start_out format_ratio (map asdict (first :: others))) as [score H];
    [discriminate|].
  exists score. rewrite H. unfold len. rewrite length_map. reflexivity.
Qed.

Lemma generated_cards_feed_the_quiz_witness :
  exists score,
    ui_start_quiz (fun _ _ => [])
      (cards_state_of
         (ui_generate (fun _ => [])
            (fun _ => Returned [mkFlashcard (lit "qa") (lit "easy") (lit "Q1") (lit "A1")]
                               (lit "fallback") [])
            (Some long_word) 5 (lit "Q/A") (lit "easy") false))
    = inr (Some (_quiz_init_state [card_a]), lit "Question 1 / 1", lit "Q1", score, []).
Proof.
  destruct (generated_cards_feed_the_quiz
              (fun _ => [])
              (fun _ => Returned [mkFlashcard (lit "qa") (lit "easy") (lit "Q1") (lit "A1")]
                                 (lit "fallback") [])
              (fun _ _ => []) long_word long_word 5 (lit "Q/A") (lit "easy") false
              (mkFlashcard (lit "qa") (lit "easy") (lit "Q1") (lit "A1")) []
              (lit "fallback") [])
    as (_ & score & H).
  - vm_compute. reflexivity.
  - reflexivity.
  - exists score. exact H.
Defined.

(** ** Sessions of several clicks *)

Section Sessions.

Variable format_ratio : Z -> Z -> str.

Lemma inert_outputs (quiz_state : option QuizState) :
  (quiz_state = None \/ exists s, quiz_state = Some s /\ cards s = []) ->
  ui_reveal_answer format_ratio quiz_state = (quiz_state, [], [], [], msg_start_first)
  /\ (forall b, ui_mark_answer format_ratio quiz_state b
                = (quiz_state, [], [], [], msg_start_first))
  /\ ui_next_question format_ratio quiz_state
     = (quiz_state, [], [], [], msg_start_first).
Proof.
  intros [->|(s & -> & Hc)]; [repeat split|].
  unfold ui_reveal_answer, ui_mark_answer, ui_next_question. rewrite Hc.
  repeat split.
Qed.

Lemma reveal_state_finished (s : QuizState) :
  finished s = true ->
  state_of (ui_reveal_answer format_ratio (Some s)) = Some s.
Proof.
  intros Hf. unfold ui_reveal_answer.
  destruct (is_empty (cards s)); [reflexivity|]. rewrite Hf.
  destruct (finished_out_value format_ratio s) as [sc E]. rewrite E. reflexivity.
Qed.

Lemma mark_state_out_of_range (s : QuizState) (is_correct : bool) :
  cards s <> [] -> finished s = false -> marked s = false ->
  (idx s < 0 \/ len (cards s) <= idx s)%Z ->
  state_of (ui_mark_answer format_ratio (Some s) is_correct)
  = Some (set_finished true s).
Proof.
  intros Hc Hf Hm Hi. unfold ui_mark_answer.
  rewrite (is_empty_false _ Hc), Hf, Hm.
  assert (G : ((idx s <? 0) || (idx s >=? len (cards s)))%Z = true).
  { apply orb_true_iff. destruct Hi as [Hi|Hi].
    - left. now apply Z.ltb_lt.
    - right. destruct (Z.geb_spec (idx s) (len (cards s))); [reflexivity | lia]. }
  rewrite G.
  destruct (finished_out_value format_ratio (set_finished true s)) as [sc E].
  rewrite E. reflexivity.
Qed.

Lemma cards_empty_or_not (s : QuizState) : cards s = [] \/ cards s <> [].
Proof. destruct (cards s); [now left | right; discriminate]. Qed.

(** To show that a property holds of every stored state it is enough to
    show that the fresh state has it and that the four changes of state
    the handlers make keep it. *)
Lemma click_preserves (P : QuizState -> Prop) :
  (forall cards_state, P (_quiz_init_state cards_state)) ->
  (forall s, P s -> P (set_revealed true s)) ->
  (forall s (b : bool) (card : Dict),
      P s -> finished s = false -> marked s = false ->
      (0 <= idx s < len (cards s))%Z ->
      nth_error (cards s) (Z.to_nat (idx s)) = Some card ->
      P (mkQuiz (cards s) (idx s) (revealed s) true
                (if b then correct s + 1 else correct s)%Z
                (if b then incorrect s else incorrect s + 1)%Z
                (answered s + 1)%Z
                (history s ++ [history_entry card b])
                (finished s))) ->
  (forall s,
      P s -> cards s <> [] -> finished s = false -> marked s = false ->
      (idx s < 0 \/ len (cards s) <= idx s)%Z ->
      P (set_finished true s)) ->
  (forall s,
      P s -> cards s <> [] -> finished s = false ->
      P (mkQuiz (cards s) (idx s + 1)%Z false false (correct s) (incorrect s)
                (answered s) (history s)
                (idx s + 1 >=? len (cards s))%Z)) ->
  forall quiz_state a,
    stored P quiz_state -> stored P (click format_ratio quiz_state a).
Proof.
  intros Hinit Hreveal Hmark Hout Hnext quiz_state a H.
  destruct a as [cards_state| |is_correct|]; cbn [click].
  - destruct (start_state format_ratio cards_state) as (o & E & Es).
    rewrite E, Es. apply Hinit.
  - destruct quiz_state as [s|]; [|exact H].
    destruct (reveal_state_cases format_ratio s) as [E|E]; rewrite E;
      [exact H | now apply Hreveal].
  - destruct quiz_state as [s|]; [|exact H]. cbn [stored] in H.
    destruct (finished s) eqn:Hf.
    { rewrite (mark_state_unchanged format_ratio s is_correct (or_intror Hf)).
      exact H. }
    destruct (marked s) eqn:Hm.
    { rewrite (mark_state_unchanged format_ratio s is_correct (or_introl Hm)).
      exact H. }
    destruct (cards_empty_or_not s) as [Hc|Hne].
    { destruct (inert_outputs (Some s)) as (_ & E & _).
      - right. exists s. auto.
      - rewrite E. exact H. }
    destruct (Z.ltb_spec (idx s) 0) as [Hlt|Hge].
    { rewrite (mark_state_out_of_range s is_correct Hne Hf Hm (or_introl Hlt)).
      apply Hout; auto. }
    destruct (Z.ltb_spec (idx s) (len (cards s))) as [Hin|Hge'].
    + destruct (mark_state_counted format_ratio s is_correct Hf Hm)
        as (card & E1 & E2); [lia|].
      rewrite E2. cbn [stored]. apply Hmark; auto; lia.
    + rewrite (mark_state_out_of_range s is_correct Hne Hf Hm (or_intror Hge')).
      apply Hout; auto.
  - destruct quiz_state as [s|]; [|exact H]. cbn [stored] in H.
    destruct (finished s) eqn:Hf.
    { rewrite (next_state_finished format_ratio s Hf). exact H. }
    destruct (cards_empty_or_not s) as [Hc|Hne].
    { destruct (inert_outputs (Some s)) as (_ & _ & E).
      - right. exists s. auto.
      - rewrite E. exact H. }
    destruct (next_out format_ratio s Hne Hf) as (sc & fb & E).
    rewrite E. cbn [state_of stored]. now apply Hnext.
Qed.

Lemma reachable_preserves (P : QuizState -> Prop) :
  (forall quiz_state a,
      stored P quiz_state -> stored P (click format_ratio quiz_state a)) ->
  (forall cards_state, P (_quiz_init_state cards_state)) ->
  forall quiz_state, reachable format_ratio quiz_state -> stored P quiz_state.
Proof.
  intros Hclick Hinit quiz_state H.
  induction H as [cards_state | quiz_state a _ IH]; [apply Hinit | now apply Hclick].
Qed.

Lemma nonempty_len {A : Type} (l : list A) : l <> [] -> (0 < len l)%Z.
Proof. destruct l; [congruence|]. unfold len. simpl length. lia. Qed.

Lemma well_formed_click (quiz_state : option QuizState) (a : Action) :
  stored session_well_formed quiz_state ->
  stored session_well_formed (click format_ratio quiz_state a).
Proof.
  apply click_preserves; unfold session_well_formed;
    cbn [cards idx revealed marked correct incorrect answered history finished
         set_revealed set_finished _quiz_init_state].
  - intros cs. unfold len.
    split; [lia|]. split; [|split; [discriminate|]; repeat split; lia].
    split; [discriminate|].
    intros [Hne E]. destruct cs; [congruence | simpl in E; lia].
  - intros s H. exact H.
  - intros s b card (H1 & H2 & H3 & H4 & H5 & H6) Hf Hm Hi _.
    rewrite Hm in H6.
    split; [lia|]. split; [exact H2|]. split; [intros _; lia|].
    split; [destruct b; lia|]. split; [destruct b; lia | lia].
  - intros s (H1 & H2 & H3 & H4 & H5 & H6) Hne Hf Hm Hi. exfalso.
    destruct Hi as [Hi|Hi]; [lia|].
    assert (E : idx s = len (cards s)) by lia.
    assert (Hfin : finished s = true) by (apply H2; auto). congruence.
  - intros s (H1 & H2 & H3 & H4 & H5 & H6) Hne Hf.
    assert (Hlt : (idx s < len (cards s))%Z).
    { destruct (Z.eq_dec (idx s) (len (cards s))) as [E|E]; [|lia].
      assert (Hfin : finished s = true) by (apply H2; auto). congruence. }
    split; [lia|]. split; [|split; [discriminate|]].
    + split.
      * intros G. split; [exact Hne|].
        destruct (Z.geb_spec (idx s + 1) (len (cards s))); [lia | discriminate].
      * intros [_ E].
        destruct (Z.geb_spec (idx s + 1) (len (cards s))); [reflexivity | lia].
    + split; [lia|]. split; [lia|]. destruct (marked s); lia.
Qed.

Lemma well_formed_init (cards_state : list Dict) :
  session_well_formed (_quiz_init_state cards_state).
Proof.
  unfold session_well_formed, len. cbn.
  split; [lia|]. split; [|split; [discriminate|]; repeat split; lia].
  split; [discriminate|].
  intros [Hne E]. destruct cards_state; [congruence | simpl in E; lia].
Qed.

Lemma history_agrees_init (cards_state : list Dict) :
  history_agrees (_quiz_init_state cards_state).
Proof. repeat split. intros h []. Qed.

Lemma result_of_entry (card : Dict) (b : bool) :
  dict_get (history_entry card b) (lit "result") []
  = if b then lit "correct" else lit "incorrect".
Proof. reflexivity. Qed.

Lemma count_results_app (result : str) (h1 h2 : list Dict) :
  count_results result (h1 ++ h2)
  = (count_results result h1 + count_results result h2)%Z.
Proof.
  unfold count_results, len. rewrite filter_app, length_app. lia.
Qed.

Lemma count_results_entry (card : Dict) (b : bool) :
  count_results (lit "correct") [history_entry card b] = (if b then 1 else 0)%Z
  /\ count_results (lit "incorrect") [history_entry card b] = (if b then 0 else 1)%Z.
Proof.
  unfold count_results. cbn [filter]. rewrite result_of_entry.
  destruct b; split; reflexivity.
Qed.

Lemma history_agrees_click (quiz_state : option QuizState) (a : Action) :
  stored history_agrees quiz_state ->
  stored history_agrees (click format_ratio quiz_state a).
Proof.
  apply click_preserves; unfold history_agrees;
    cbn [cards idx revealed marked correct incorrect answered history finished
         set_revealed set_finished _quiz_init_state].
  - intros cs. repeat split. intros h [].
  - intros s H. exact H.
  - intros s b card (H1 & H2 & H3) _ _ _ Hcard.
    rewrite !count_results_app, H1, H2.
    destruct (count_results_entry card b) as [E1 E2]. rewrite E1, E2.
    split; [destruct b; lia|]. split; [destruct b; lia|].
    intros h Hh. apply in_app_iff in Hh. destruct Hh as [Hh|[<-|[]]].
    + now apply H3.
    + exists card, b. split; [|reflexivity].
      exact (nth_error_In _ _ Hcard).
  - intros s H _ _ _ _. exact H.
  - intros s H _ _. exact H.
Qed.

End Sessions.

(** X7.  In every quiz state reached from a fresh one, the cursor lies
    within the cards and the score stays within bounds: the counters are
    not negative, no more answers are counted than there are cards, the
    session is finished exactly when the cursor has passed the last card,
    and until then the cursor stands on a card, whose question is the one
    shown. *)
Theorem reachable_session_in_bounds (format_ratio : Z -> Z -> str) (s : QuizState) :
  reachable format_ratio (Some s) ->
  (0 <= idx s <= len (cards s))%Z
  /\ (0 <= correct s <= answered s)%Z
  /\ (0 <= incorrect s <= answered s)%Z
  /\ (answered s <= len (cards s))%Z
  /\ (finished s = true <-> cards s <> [] /\ idx s = len (cards s))
  /\ (cards s <> [] -> finished s = false ->
      exists card,
        nth_error (cards s) (Z.to_nat (idx s)) = Some card
        /\ _quiz_current_question s = inr (question_text card)).
Proof.
  intros H.
  pose proof (reachable_stored_consistent format_ratio (Some s) H) as [C1 C2].
  pose proof (reachable_preserves format_ratio session_well_formed
                (well_formed_click format_ratio)) as Hwf.
  specialize (Hwf well_formed_init).
  specialize (Hwf (Some s) H). cbn [stored] in Hwf.
  destruct Hwf as (H1 & H2 & H3 & H4 & H5 & H6).
  assert (Hans : (answered s <= len (cards s))%Z).
  { destruct (marked s); [specialize (H3 eq_refl); lia | lia]. }
  split; [lia|]. split; [lia|]. split; [lia|]. split; [exact Hans|].
  split; [exact H2|].
  intros Hne Hf.
  assert (Hlt : (idx s < len (cards s))%Z).
  { destruct (Z.eq_dec (idx s) (len (cards s))) as [E|E]; [|lia].
    assert (Hfin : finished s = true) by (apply H2; auto). congruence. }
  destruct (py_index_in_range (cards s) (idx s)) as (card & E1 & _); [lia|].
  exists card. split; [exact E1|].
  rewrite current_question_value. unfold shown, question_text.
  rewrite (is_empty_false _ Hne).
  destruct (Z.ltb_spec (idx s) 0); [lia|].
  destruct (Z.geb_spec (idx s) (len (cards s))); [lia|].
  cbn [orb]. now rewrite E1.
Qed.

Lemma reachable_session_in_bounds_witness :
  let s := mkQuiz two_cards 1 false true 1 1 2
                  [history_entry card_a true; history_entry card_b false] false in
  (answered s <= len (cards s))%Z
  /\ _quiz_current_question s = inr (lit "Q2").
Proof.
  intros s.
  assert (H : reachable (fun _ _ => []) (Some s)).
  { change (reachable (fun _ _ => [])
              (click (fun _ _ => [])
                 (click (fun _ _ => [])
                    (click (fun _ _ => []) (Some (_quiz_init_state two_cards))
                           (Mark true))
                    Next)
                 (Mark false))).
    do 3 apply reach_click. apply reach_init. }
  destruct (reachable_session_in_bounds (fun _ _ => []) s H)
    as (_ & _ & _ & H4 & _ & H6).
  split; [exact H4|].
  destruct H6 as (card & E1 & E2); [discriminate | reflexivity |].
  injection E1 as <-. exact E2.
Defined.

(** X8.  In every quiz state reached from a fresh one the history agrees
    with the score: as many entries with the result "correct" as [correct]
    counts, as many with "incorrect" as [incorrect] counts, and every entry
    made of a card of the session. *)
Theorem reachable_history_agrees (format_ratio : Z -> Z -> str) (s : QuizState) :
  reachable format_ratio (Some s) ->
  count_results (lit "correct") (history s) = correct s
  /\ count_results (lit "incorrect") (history s) = incorrect s
  /\ forall h, In h (history s) ->
       exists card b, In card (cards s) /\ h = history_entry card b.
Proof.
  intros H.
  exact (reachable_preserves format_ratio history_agrees
           (history_agrees_click format_ratio) history_agrees_init (Some s) H).
Qed.

Lemma reachable_history_agrees_witness :
  let s := mkQuiz two_cards 1 false true 1 1 2
                  [history_entry card_a true; history_entry card_b false] false in
  count_results (lit "correct") (history s) = 1%Z
  /\ count_results (lit "incorrect") (history s) = 1%Z.
Proof.
  intros s.
  assert (H : reachable (fun _ _ => []) (Some s)).
  { change (reachable (fun _ _ => [])
              (click (fun _ _ => [])
                 (click (fun _ _ => [])
                    (click (fun _ _ => []) (Some (_quiz_init_state two_cards))
                           (Mark true))
                    Next)
                 (Mark false))).
    do 3 apply reach_click. apply reach_init. }
  destruct (reachable_history_agrees (fun _ _ => []) s H) as (H1 & H2 & _).
  split; [exact H1 | exact H2].
Defined.

(** X9.  A finished session is frozen: whatever is clicked among Reveal,
    Correct, Incorrect and Next, the quiz state, and so the score, stays as
    it is until the quiz is started again. *)
Theorem finished_session_is_frozen
    (format_ratio : Z -> Z -> str) (s : QuizState) (l : list Action) :
  finished s = true ->
  forallb (fun a => negb (is_start a)) l = true ->
  clicks format_ratio (Some s) l = Some s.
Proof.
  intros Hf. unfold clicks. induction l as [|a l IH]; intros Hl; [reflexivity|].
  cbn [forallb] in Hl. apply andb_true_iff in Hl. destruct Hl as [Ha Hl].
  cbn [fold_left].
  assert (E : click format_ratio (Some s) a = Some s).
  { destruct a as [cs| |b|]; cbn [click].
    - discriminate Ha.
    - now apply reveal_state_finished.
    - apply mark_state_unchanged. now right.
    - now apply next_state_finished. }
  rewrite E. now apply IH.
Qed.

Lemma finished_session_is_frozen_witness :
  let s := mkQuiz two_cards 2 false false 1 0 1 [history_entry card_a true] true in
  clicks (fun _ _ => []) (Some s) [Mark true; Next; Reveal; Mark false] = Some s.
Proof.
  intros s.
  apply (finished_session_is_frozen (fun _ _ => []) s
           [Mark true; Next; Reveal; Mark false]); reflexivity.
Defined.

(** X10.  Before the quiz is started, and when it was started without
    cards, the buttons do nothing: each handler answers "Start the quiz
    first" and gives back the state it was given, and so does every
    sequence of clicks on Reveal, Correct, Incorrect and Next. *)
Theorem unstarted_session_is_inert
    (format_ratio : Z -> Z -> str) (quiz_state : option QuizState) :
  (quiz_state = None \/ exists s, quiz_state = Some s /\ cards s = []) ->
  ui_reveal_answer format_ratio quiz_state = (quiz_state, [], [], [], msg_start_first)
  /\ (forall b, ui_mark_answer format_ratio quiz_state b
                = (quiz_state, [], [], [], msg_start_first))
  /\ ui_next_question format_ratio quiz_state
     = (quiz_state, [], [], [], msg_start_first)
  /\ (forall l, forallb (fun a => negb (is_start a)) l = true ->
                clicks format_ratio quiz_state l = quiz_state).
Proof.
  intros H. destruct (inert_outputs format_ratio quiz_state H) as (H1 & H2 & H3).
  split; [exact H1|]. split; [exact H2|]. split; [exact H3|].
  unfold clicks. induction l as [|a l IH]; intros Hl; [reflexivity|].
  cbn [forallb] in Hl. apply andb_true_iff in Hl. destruct Hl as [Ha Hl].
  cbn [fold_left].
  assert (E : click format_ratio quiz_state a = quiz_state).
  { destruct a as [cs| |b|]; cbn [click].
    - discriminate Ha.
    - now rewrite H1.
    - now rewrite H2.
    - now rewrite H3. }
  rewrite E. now apply IH.
Qed.

Lemma unstarted_session_is_inert_witness :
  ui_start_quiz (fun _ _ => []) []
  = inr (Some (_quiz_init_state []), msg_no_cards, [], [], [])
  /\ clicks (fun _ _ => []) (Some (_quiz_init_state [])) [Reveal; Mark true; Next]
     = Some (_quiz_init_state []).
Proof.
  split; [reflexivity|].
  assert (H : Some (_quiz_init_state []) = None
              \/ exists s, Some (_quiz_init_state []) = Some s /\ cards s = []).
  { right. exists (_quiz_init_state []). split; reflexivity. }
  apply (proj2 (proj2 (proj2 (unstarted_session_is_inert
                                (fun _ _ => []) (Some (_quiz_init_state [])) H)))).
  reflexivity.
Defined.

(** ** A whole quiz *)

Lemma skipn_nth_error {A : Type} (l : list A) (j : nat) (x : A) :
  nth_error l j = Some x -> skipn j l = x :: skipn (S j) l.
Proof.
  revert j. induction l as [|y l IH]; intros [|j] H; try discriminate.
  - injection H as ->. reflexivity.
  - cbn [nth_error] in H. change (skipn (S j) (y :: l)) with (skipn j l).
    rewrite (IH j H). reflexivity.
Qed.

Lemma count_true_cons (b : bool) (answers : list bool) :
  count_true (b :: answers) = ((if b then 1 else 0) + count_true answers)%Z.
Proof.
  unfold count_true, len. cbn [filter]. destruct b; cbn [length]; lia.
Qed.

Lemma count_false_cons (b : bool) (answers : list bool) :
  count_false (b :: answers) = ((if b then 0 else 1) + count_false answers)%Z.
Proof.
  unfold count_false, len. cbn [filter]. destruct b; cbn [negb length]; lia.
Qed.

Lemma mkQuiz_congr (cs : list Dict) (i i' : Z) (r m : bool)
    (c c' n n' a a' : Z) (h h' : list Dict) (f f' : bool) :
  i = i' -> c = c' -> n = n' -> a = a' -> h = h' -> f = f' ->
  mkQuiz cs i r m c n a h f = mkQuiz cs i' r m c' n' a' h' f'.
Proof. intros; subst; reflexivity. Qed.

Section WholeQuiz.

Variable format_ratio : Z -> Z -> str.

(** One question: it is marked, then the quiz goes on. *)
Lemma one_round (cs : list Dict) (j : nat) (c i a : Z) (h : list Dict)
    (card : Dict) (b : bool) :
  nth_error cs j = Some card ->
  click format_ratio
    (click format_ratio (Some (mkQuiz cs (Z.of_nat j) false false c i a h false))
           (Mark b))
    Next
  = Some (mkQuiz cs (Z.of_nat (S j)) false false
                 (c + (if b then 1 else 0))%Z (i + (if b then 0 else 1))%Z
                 (a + 1)%Z (h ++ [history_entry card b])
                 (Z.of_nat (S j) >=? len cs)%Z).
Proof.
  intros Hcard.
  assert (Hj : j < length cs) by (apply nth_error_Some; congruence).
  cbn [click].
  destruct (mark_state_counted format_ratio
              (mkQuiz cs (Z.of_nat j) false false c i a h false) b)
    as (card' & E1 & E2); [reflexivity | reflexivity | cbn; unfold len; lia |].
  cbn [cards idx revealed marked correct incorrect answered history finished]
    in E1, E2.
  rewrite Nat2Z.id, Hcard in E1. injection E1 as <-. rewrite E2.
  match goal with |- state_of (ui_next_question _ (Some ?m)) = _ =>
    destruct (next_out format_ratio m) as (sc & fb & E)
  end.
  - cbn. destruct cs; [simpl in Hj; lia | discriminate].
  - reflexivity.
  - rewrite E. cbn [state_of cards idx revealed marked correct incorrect
                    answered history finished].
    apply f_equal, mkQuiz_congr;
      [lia | destruct b; lia | destruct b; lia | lia | reflexivity | f_equal; lia].
Qed.

Lemma answer_all_from (cs : list Dict) (answers : list bool) :
  forall (j : nat) (c i a : Z) (h : list Dict),
    answers <> [] -> j + length answers <= length cs ->
    answer_all format_ratio answers
      (Some (mkQuiz cs (Z.of_nat j) false false c i a h false))
    = Some (mkQuiz cs (Z.of_nat (j + length answers)) false false
                   (c + count_true answers)%Z (i + count_false answers)%Z
                   (a + len answers)%Z (h ++ entries (skipn j cs) answers)
                   (Z.of_nat (j + length answers) >=? len cs)%Z).
Proof.
  induction answers as [|b rest IH]; intros j c i a h Hne Hlen; [congruence|].
  cbn [length] in Hlen.
  destruct (nth_error cs j) as [card|] eqn:Hcard;
    [|apply nth_error_None in Hcard; lia].
  unfold answer_all in IH |- *. cbn [fold_left].
  rewrite (one_round cs j c i a h card b Hcard).
  rewrite (skipn_nth_error cs j card Hcard). cbn [entries].
  rewrite count_true_cons, count_false_cons.
  destruct rest as [|b' rest'].
  - cbn [fold_left length entries].
    assert (E0 : entries (skipn (S j) cs) [] = []) by (destruct (skipn (S j) cs); reflexivity).
    rewrite E0.
    apply f_equal, mkQuiz_congr;
      [ f_equal; lia
      | unfold count_true, len; cbn [filter length]; lia
      | unfold count_false, len; cbn [filter length]; lia
      | unfold len; cbn [length]; lia
      | reflexivity
      | do 2 f_equal; lia ].
  - destruct (Z.geb_spec (Z.of_nat (S j)) (len cs)) as [G|G];
      [unfold len in G; cbn [length] in Hlen; lia|].
    rewrite IH; [|discriminate | cbn [length] in *; lia].
    apply f_equal, mkQuiz_congr;
      [ f_equal; cbn [length]; lia
      | lia
      | lia
      | unfold len; cbn [length]; lia
      | now rewrite <- app_assoc
      | do 2 f_equal; cbn [length]; lia ].
Qed.

End WholeQuiz.

(** X11.  A whole quiz: when the user marks every question and clicks
    Next after each, over [k >= 1] cards, the session ends finished, with
    [k] answers counted, as many correct as answers marked correct, as many
    incorrect as the others, and one history entry for each card, in the
    order of the cards. *)
Theorem whole_quiz_counts_every_card
    (format_ratio : Z -> Z -> str) (cards_state : list Dict) (answers : list bool) :
  cards_state <> [] -> length answers = length cards_state ->
  answer_all format_ratio answers (Some (_quiz_init_state cards_state))
  = Some (mkQuiz cards_state (len cards_state) false false
                 (count_true answers) (count_false answers) (len cards_state)
                 (entries cards_state answers) true).
Proof.
  intros Hne Hlen.
  assert (Ha : answers <> []).
  { destruct answers; [|discriminate]. destruct cards_state; [congruence | discriminate]. }
  pose proof (answer_all_from format_ratio cards_state answers 0 0 0 0 [] Ha) as H.
  cbn [Nat.add skipn app] in H. unfold _quiz_init_state.
  change (Z.of_nat 0) with 0%Z in H. rewrite H by lia.
  unfold len. rewrite Hlen.
  destruct (Z.geb_spec (Z.of_nat (length cards_state))
                       (Z.of_nat (length cards_state))); [|lia].
  apply f_equal, mkQuiz_congr; try reflexivity; lia.
Qed.

Lemma whole_quiz_counts_every_card_witness :
  answer_all (fun _ _ => []) [true; false] (Some (_quiz_init_state two_cards))
  = Some (mkQuiz two_cards 2 false false 1 1 2
                 [history_entry card_a true; history_entry card_b false] true).
Proof.
  apply (whole_quiz_counts_every_card (fun _ _ => []) two_cards [true; false]).
  - discriminate.
  - reflexivity.
Defined.

(** ** Reading a PDF *)

Lemma page_chunks_skip (pages : list PageOutcome) :
  page_chunks (filter page_has_text pages) = page_chunks pages.
Proof.
  unfold page_chunks, page_has_text.
  induction pages as [|p pages IH]; [reflexivity|].
  cbn [filter map]. destruct (has_text (page_text p)) eqn:E.
  - cbn [map filter]. rewrite E. now f_equal.
  - exact IH.
Qed.

Lemma page_chunks_nil_iff (pages : list PageOutcome) :
  page_chunks pages = [] <-> Forall (fun p => page_has_text p = false) pages.
Proof.
  unfold page_chunks, page_has_text.
  induction pages as [|p pages IH]; [split; [constructor | reflexivity]|].
  cbn [map filter]. destruct (has_text (page_text p)) eqn:E.
  - split; [discriminate|]. intros H. inversion H. congruence.
  - rewrite IH. split; intros H; [constructor; assumption | now inversion H].
Qed.

Lemma join_In (sep x : str) (l : list str) (c : char) :
  In x l -> In c x -> In c (join sep l).
Proof.
  induction l as [|y l IH]; intros Hx Hc; [destruct Hx|].
  cbn [join]. destruct l as [|z l].
  - destruct Hx as [->|[]]. exact Hc.
  - rewrite !in_app_iff. destruct Hx as [->|Hx]; [now left|].
    right. right. now apply IH.
Qed.

Lemma has_text_visible (txt : str) :
  has_text txt = true -> exists c, In c txt /\ visible c = true.
Proof.
  unfold has_text. intros H.
  destruct (strip txt) as [|c t] eqn:E; [discriminate|].
  exists c. split.
  - apply strip_In. rewrite E. now left.
  - unfold visible. now rewrite (strip_head txt c t E).
Qed.

Lemma visible_kept_nonempty (text : str) (c : char) :
  In c text -> visible c = true ->
  strip (re_sub_run is_newline 3 [LF; LF] text) <> [].
Proof.
  intros Hin Hv E.
  assert (K : filter visible (strip (re_sub_run is_newline 3 [LF; LF] text))
              = filter visible text).
  { rewrite strip_keeps by exact visible_not_space. unfold re_sub_run.
    apply re_sub_scan_keeps; [|repeat constructor|constructor].
    intros x Hx. apply N.eqb_eq in Hx. now subst x. }
  rewrite E in K. cbn in K. symmetry in K.
  apply filter_nil_all in K. rewrite Forall_forall in K.
  specialize (K c Hin). congruence.
Qed.

Lemma extracted_text_shape (text : str) :
  let t := strip (re_sub_run is_newline 3 [LF; LF] text) in
  ~ has_run is_newline 3 t
  /\ (forall c r, t = c :: r -> isspace c = false)
  /\ (forall c r, t = r ++ [c] -> isspace c = false).
Proof.
  intros t. subst t. split; [|split].
  - apply no_has_run.
    pose proof (strip_longest_run is_newline
                  (re_sub_run is_newline 3 [LF; LF] text)).
    pose proof (re_sub_scan_longest_run is_newline 3 [LF; LF] text []).
    unfold re_sub_run in *. simpl length in *. lia.
  - intros c r E. exact (strip_head _ _ _ E).
  - intros c r E. exact (strip_last _ _ _ E).
Qed.

Section PdfProperties.

Variable pypdf_installed : bool.
Variable PdfReader : str -> ReaderOutcome.

Local Abbreviation extract := (_extract_text_from_pdf pypdf_installed PdfReader).

Lemma extract_cases (pdf_path : str) :
  (exists text pages,
      extract pdf_path = (Some text, None)
      /\ text <> []
      /\ pdf_path <> [] /\ pypdf_installed = true
      /\ PdfReader pdf_path = ReaderOpened false (inr pages)
      /\ text = strip (re_sub_run is_newline 3 [LF; LF]
                         (join [LF; LF] (page_chunks pages))))
  \/ (exists e, extract pdf_path = (None, Some e) /\ e <> []).
Proof.
  unfold _extract_text_from_pdf.
  destruct pdf_path as [|c path];
    [right; exists msg_no_pdf; split; [reflexivity | discriminate]|].
  cbn [is_empty]. destruct pypdf_installed;
    [|right; exists msg_no_pypdf; split; [reflexivity | discriminate]].
  cbn [negb]. destruct (PdfReader (c :: path)) as [e|enc pages].
  { right. exists (msg_read_failed ++ e). split; [reflexivity | discriminate]. }
  destruct enc;
    [right; exists msg_encrypted; split; [reflexivity | discriminate]|].
  destruct pages as [e|pages].
  { right. exists (msg_read_failed ++ e). split; [reflexivity | discriminate]. }
  cbv zeta.
  destruct (strip (re_sub_run is_newline 3 [LF; LF]
                     (join [LF; LF] (page_chunks pages)))) as [|x t] eqn:E.
  - right. exists msg_no_text. split; [reflexivity | discriminate].
  - left. exists (x :: t), pages. repeat split; try discriminate. now rewrite E.
Qed.

End PdfProperties.

(** X12.  [_extract_text_from_pdf] returns a text or an error, never both
    and never neither: either a text that is not empty, has no three
    newlines in a row and no whitespace at either end, or an error message
    that is not empty. *)
Theorem extract_returns_text_or_error
    (pypdf_installed : bool) (PdfReader : str -> ReaderOutcome) (pdf_path : str) :
  (exists text,
      _extract_text_from_pdf pypdf_installed PdfReader pdf_path = (Some text, None)
      /\ text <> []
      /\ ~ has_run is_newline 3 text
      /\ (forall c r, text = c :: r -> isspace c = false)
      /\ (forall c r, text = r ++ [c] -> isspace c = false))
  \/ (exists e,
        _extract_text_from_pdf pypdf_installed PdfReader pdf_path = (None, Some e)
        /\ e <> []).
Proof.
  destruct (extract_cases pypdf_installed PdfReader pdf_path)
    as [(text & pages & E & Hne & _ & _ & _ & Et)|H]; [left | now right].
  exists text. split; [exact E|]. split; [exact Hne|].
  rewrite Et. apply extracted_text_shape.
Qed.

Lemma extract_returns_text_or_error_witness :
  exists text,
    _extract_text_from_pdf true
      (fun _ => ReaderOpened false
                  (inr [PageText (Some (lit " Notes ")); PageRaises (lit "broken")]))
      (lit "a.pdf")
    = (Some text, None)
    /\ text <> [].
Proof.
  destruct (extract_returns_text_or_error true
              (fun _ => ReaderOpened false
                          (inr [PageText (Some (lit " Notes "));
                                PageRaises (lit "broken")]))
              (lit "a.pdf"))
    as [(text & E & Hne & _)|(e & E & _)].
  - exists text. split; assumption.
  - vm_compute in E. discriminate E.
Defined.

(** X13.  For a PDF that opens and is not encrypted, the extraction
    succeeds exactly when some page yields text other than whitespace.
    Pages that raise, yield nothing or yield whitespace only are skipped:
    the result is the same as for the PDF without them, and when no page is
    left the error is the one about scanned documents. *)
Theorem extract_skips_blank_pages
    (pypdf_installed : bool) (reader reader' : str -> ReaderOutcome)
    (pdf_path : str) (pages : list PageOutcome) :
  pdf_path <> [] -> pypdf_installed = true ->
  reader pdf_path = ReaderOpened false (inr pages) ->
  reader' pdf_path = ReaderOpened false (inr (filter page_has_text pages)) ->
  _extract_text_from_pdf pypdf_installed reader pdf_path
  = _extract_text_from_pdf pypdf_installed reader' pdf_path
  /\ ((exists text,
         _extract_text_from_pdf pypdf_installed reader pdf_path = (Some text, None))
      <-> exists p, In p pages /\ page_has_text p = true)
  /\ (Forall (fun p => page_has_text p = false) pages ->
      _extract_text_from_pdf pypdf_installed reader pdf_path
      = (None, Some msg_no_text)).
Proof.
  intros Hpath -> Hr Hr'. unfold _extract_text_from_pdf.
  rewrite (is_empty_false _ Hpath), Hr, Hr', page_chunks_skip. cbn [negb].
  split; [reflexivity|]. cbv zeta. split.
  - split.
    + intros [text E].
      destruct (page_chunks pages) as [|x l] eqn:Ec; [discriminate E|].
      assert (Hn : ~ Forall (fun p => page_has_text p = false) pages).
      { intros Hall. apply page_chunks_nil_iff in Hall. congruence. }
      clear - Hn. induction pages as [|p pages IH].
      * exfalso. apply Hn. constructor.
      * destruct (page_has_text p) eqn:Ep.
        -- exists p. split; [now left | exact Ep].
        -- destruct IH as (q & Hq & Eq).
           { intros Hall. apply Hn. now constructor. }
           exists q. split; [now right | exact Eq].
    + intros (p & Hp & Ep).
      destruct (has_text_visible (page_text p) Ep) as (c & Hc & Hv).
      assert (Hin : In (page_text p) (page_chunks pages)).
      { unfold page_chunks. apply filter_In. split; [|exact Ep].
        now apply in_map. }
      pose proof (visible_kept_nonempty (join [LF; LF] (page_chunks pages)) c
                    (join_In [LF; LF] _ _ c Hin Hc) Hv) as Hne.
      destruct (strip (re_sub_run is_newline 3 [LF; LF]
                         (join [LF; LF] (page_chunks pages)))) as [|x t];
        [congruence|]. eexists. reflexivity.
  - intros Hall. apply page_chunks_nil_iff in Hall. rewrite Hall. reflexivity.
Qed.

Lemma extract_skips_blank_pages_witness :
  let pages := [PageRaises (lit "broken"); PageText None;
                PageText (Some (lit "  ")); PageText (Some (lit " Notes "))] in
  _extract_text_from_pdf true (fun _ => ReaderOpened false (inr pages)) (lit "a.pdf")
  = _extract_text_from_pdf true
      (fun _ => ReaderOpened false (inr [PageText (Some (lit " Notes "))]))
      (lit "a.pdf").
Proof.
  intros pages.
  apply (extract_skips_blank_pages true
           (fun _ => ReaderOpened false (inr pages))
           (fun _ => ReaderOpened false (inr [PageText (Some (lit " Notes "))]))
           (lit "a.pdf") pages).
  - discriminate.
  - reflexivity.
  - reflexivity.
  - reflexivity.
Defined.

Lemma error_prefix_nonempty (e : str) : error_prefix ++ e <> [].
Proof. discriminate. Qed.

Lemma load_pdf_cases
    (pypdf_installed : bool) (PdfReader : str -> ReaderOutcome)
    (pdf_file : option UploadedFile) :
  (exists f text,
      pdf_file = Some f
      /\ ui_load_pdf pypdf_installed PdfReader pdf_file = (text, msg_loaded)
      /\ text <> []
      /\ _extract_text_from_pdf pypdf_installed PdfReader (upload_path f)
         = (Some text, None)
      /\ (forall c r, text = c :: r -> isspace c = false))
  \/ (exists m,
        ui_load_pdf pypdf_installed PdfReader pdf_file = ([], error_prefix ++ m)
        /\ m <> []).
Proof.
  destruct pdf_file as [f|].
  - unfold ui_load_pdf.
    destruct (extract_cases pypdf_installed PdfReader (upload_path f))
      as [(text & pages & E & Hne & _ & _ & _ & Et)|(e & E & Hne)]; rewrite E.
    + left. exists f, text. repeat split; auto.
      rewrite Et. apply extracted_text_shape.
    + right. exists e. destruct e as [|c e]; [congruence|]. auto.
  - right. exists (lit "Please upload a PDF file.").
    split; [reflexivity | discriminate].
Qed.

(** X14.  [ui_load_pdf] fills the textbox exactly when it reports success:
    with the status "Loaded PDF text" the text is the extracted one and is
    not empty; in every other case, a missing upload included, the text is
    empty and the status is an "**Error:**" message. *)
Theorem load_pdf_text_or_error
    (pypdf_installed : bool) (PdfReader : str -> ReaderOutcome)
    (pdf_file : option UploadedFile) :
  (exists f text,
      pdf_file = Some f
      /\ ui_load_pdf pypdf_installed PdfReader pdf_file = (text, msg_loaded)
      /\ text <> []
      /\ _extract_text_from_pdf pypdf_installed PdfReader (upload_path f)
         = (Some text, None))
  \/ (exists m,
        ui_load_pdf pypdf_installed PdfReader pdf_file = ([], error_prefix ++ m)
        /\ m <> []).
Proof.
  destruct (load_pdf_cases pypdf_installed PdfReader pdf_file)
    as [(f & text & H1 & H2 & H3 & H4 & _)|H]; [left | now right].
  exists f, text. auto.
Qed.

Lemma load_pdf_text_or_error_witness :
  exists m,
    ui_load_pdf true (fun _ => ReaderOpened true (inr []))
                (Some (mkUpload (Some (lit "locked.pdf")) (lit "x")))
    = ([], error_prefix ++ m)
    /\ m <> [].
Proof.
  destruct (load_pdf_text_or_error true (fun _ => ReaderOpened true (inr []))
              (Some (mkUpload (Some (lit "locked.pdf")) (lit "x"))))
    as [(f & text & _ & E & _)|H].
  - vm_compute in E. discriminate E.
  - exact H.
Defined.

(** X15.  A text loaded from a PDF is never reported as empty by the
    preprocessing: passed on as it is, it is either accepted or found too
    short. *)
Theorem loaded_text_is_not_empty
    (pypdf_installed : bool) (PdfReader : str -> ReaderOutcome)
    (pdf_file : option UploadedFile) (text : str) :
  ui_load_pdf pypdf_installed PdfReader pdf_file = (text, msg_loaded) ->
  normalize text <> []
  /\ (_preprocess_study_text (Some text) = (None, Some msg_short)
      \/ _preprocess_study_text (Some text) = (Some (normalize text), None)).
Proof.
  intros H.
  assert (Hshape : text <> [] /\ forall c r, text = c :: r -> isspace c = false).
  { destruct (load_pdf_cases pypdf_installed PdfReader pdf_file)
      as [(f & text' & _ & H2 & H3 & _ & H5)|(m & H2 & _)]; rewrite H2 in H.
    - injection H as <-. split; assumption.
    - injection H as _ H. cbn in H. discriminate H. }
  destruct Hshape as [Hne Hhead].
  assert (Hn : normalize text <> []).
  { intros E. apply normalize_nil_iff in E.
    destruct text as [|c r]; [congruence|].
    inversion E as [|? ? Hc _]; subst. rewrite (Hhead c r eq_refl) in Hc.
    discriminate. }
  split; [exact Hn|]. rewrite preprocess_cases.
  destruct (normalize text) as [|c t]; [congruence|].
  destruct (length (c :: t) <? 120); [now left | now right].
Qed.

Lemma loaded_text_is_not_empty_witness :
  normalize (lit "Notes") <> [].
Proof.
  apply (loaded_text_is_not_empty true
           (fun _ => ReaderOpened false (inr [PageText (Some (lit " Notes "))]))
           (Some (mkUpload None (lit "a.pdf"))) (lit "Notes")).
  reflexivity.
Defined.

(** ** Line ends *)

Lemma replace_crlf_to_crlf (s : str) :
  ~ In CR s -> replace [CR; LF] [LF] (to_crlf s) = s.
Proof.
  unfold replace. induction s as [|c s IH]; intros H; [reflexivity|].
  assert (Hs : ~ In CR s) by (intros Hin; apply H; now right).
  assert (Hc : c <> CR) by (intros E; apply H; now left).
  cbn [to_crlf flat_map]. destruct (N.eqb_spec c LF) as [->|Hlf].
  - cbn. f_equal. now apply IH.
  - cbn [app replace_from starts_with].
    destruct (N.eqb_spec CR c) as [E|_]; [congruence|].
    cbn [andb]. f_equal. now apply IH.
Qed.

Lemma replace_crlf_no_lf (t : str) :
  ~ In LF t -> replace [CR; LF] [LF] t = t.
Proof.
  unfold replace. induction t as [|c t IH]; intros H; [reflexivity|].
  cbn [replace_from].
  change (starts_with [CR; LF] (c :: t)) with (N.eqb CR c && starts_with [LF] t).
  assert (E : starts_with [LF] t = false).
  { destruct t as [|d t]; [reflexivity|]. cbn [starts_with].
    destruct (N.eqb_spec LF d) as [<-|_]; [|reflexivity].
    exfalso. apply H. right. now left. }
  rewrite E, andb_false_r. f_equal. apply IH.
  intros Hin. apply H. now right.
Qed.

Lemma to_cr_no_lf (s : str) : ~ In LF (to_cr s).
Proof.
  unfold to_cr. intros H. apply in_map_iff in H. destruct H as (c & E & _).
  destruct (N.eqb_spec c LF) as [Hc|Hc]; [discriminate E | congruence].
Qed.

Lemma replace_crlf_to_cr (s : str) :
  replace [CR; LF] [LF] (to_cr s) = to_cr s.
Proof. apply replace_crlf_no_lf, to_cr_no_lf. Qed.

Lemma replace_cr_to_cr (s : str) :
  ~ In CR s -> replace [CR] [LF] (to_cr s) = s.
Proof.
  unfold replace. induction s as [|c s IH]; intros H; [reflexivity|].
  assert (Hs : ~ In CR s) by (intros Hin; apply H; now right).
  assert (Hc : c <> CR) by (intros E; apply H; now left).
  cbn [to_cr map replace_from starts_with].
  destruct (N.eqb_spec c LF) as [->|Hlf].
  - cbn. f_equal. now apply IH.
  - destruct (N.eqb_spec CR c) as [E|_]; [congruence|].
    cbn [andb]. f_equal. now apply IH.
Qed.

(** X16.  The cleaning does not depend on how the line ends are written:
    a text gives the same result whether its lines end in LF, in CR LF or
    in CR. *)
Theorem preprocess_ignores_line_end_style (raw : str) :
  ~ In CR raw ->
  _preprocess_study_text (Some (to_crlf raw)) = _preprocess_study_text (Some raw)
  /\ _preprocess_study_text (Some (to_cr raw)) = _preprocess_study_text (Some raw).
Proof.
  intros H.
  assert (E1 : normalize (to_crlf raw) = normalize raw).
  { unfold normalize. rewrite (replace_crlf_to_crlf raw H).
    now rewrite (replace_absent CR [LF] [LF] raw H), (replace_absent CR [] [LF] raw H). }
  assert (E2 : normalize (to_cr raw) = normalize raw).
  { unfold normalize. rewrite replace_crlf_to_cr, (replace_cr_to_cr raw H).
    now rewrite (replace_absent CR [LF] [LF] raw H), (replace_absent CR [] [LF] raw H). }
  rewrite !preprocess_cases, E1, E2. split; reflexivity.
Qed.

Lemma preprocess_ignores_line_end_style_witness :
  _preprocess_study_text (Some (lit "a" ++ [CR; LF] ++ lit "b"))
  = _preprocess_study_text (Some (lit "a" ++ [LF] ++ lit "b"))
  /\ _preprocess_study_text (Some (lit "a" ++ [CR] ++ lit "b"))
     = _preprocess_study_text (Some (lit "a" ++ [LF] ++ lit "b")).
Proof.
  apply (preprocess_ignores_line_end_style (lit "a" ++ [LF] ++ lit "b")).
  cbn. intros [H|[H|[H|[]]]]; discriminate H.
Defined.

(** ** The fallback path of the engine *)











Section EngineProperties.

Import Engine.

Variable is_header : str -> bool.
Variable score : str -> nat.
Variable render : str -> str -> Dict.














End EngineProperties.



